(** * Session lifecycle, tool-call retry and orchestration of the chat backend

    A shallow embedding of [demo/chatbot-ui/backend/src/index.ts] (and of the
    tool loop of the older backend kept next to it, [src/unnamed/part_000]).

    The backend is asynchronous JavaScript: module-level variables mutated by
    [async] functions that suspend at every network call.  An [async]
    function is embedded as a finite tree of type [Prog]: leaves are
    [return]/[throw], inner nodes read or update the state, or await an
    operation of an external party (the MCP SDK client, the OAuth provider,
    the Anthropic SDK, a timer).  The external parties are not modelled: an
    interpreter [run] asks a [World] for the answer to every awaited
    operation, and the theorems quantify over all worlds.  [Promise.all] is a
    scheduler over such trees, driven by a completion order that the
    theorems quantify over as well.

    Two loops are bounded by fuel.  The retry loop of a tool invocation gets
    more fuel than it can use.  The tool loop of a turn runs as long as the
    model asks for tools, so its fuel is a parameter; running out of it, or
    of completions in a schedule, is the outcome [Diverged], and more fuel
    or a longer schedule never changes another outcome
    ([toolUseLoop_more_fuel], [drive_more_schedule]).

    Not modelled: [console.log] output, the checks of the environment at
    start-up, the fixed HTML of the pages of the OAuth callback route, the
    shutdown handler, and the text of the system prompt.  [ws.send] is
    taken not to fail. *)

From stdpp Require Import gmap strings list.

Open Scope string_scope.
Open Scope list_scope.

(** ** Thrown values *)

(** What a [catch (error)] clause can receive.  [ErrorObject] is a value with
    [error instanceof Error]; [unauthorized] tells whether it is also an
    [instanceof UnauthorizedError].  [NonError] is any other thrown value
    (no [message] property); it carries [String(error)]. *)
Inductive Thrown : Type :=
| ErrorObject (unauthorized : bool) (name message : string)
| NonError (rendering : string).

Definition newError (message : string) : Thrown := ErrorObject false "Error" message.

(** [null.callTool] and the like. *)
Definition nullDereference (property : string) : Thrown :=
  ErrorObject false "TypeError"
    ("Cannot read properties of null (reading '" +:+ property +:+ "')").

Definition instanceofError (e : Thrown) : bool :=
  match e with ErrorObject _ _ _ => true | NonError _ => false end.

Definition instanceofUnauthorizedError (e : Thrown) : bool :=
  match e with ErrorObject u _ _ => u | NonError _ => false end.

(** [String(error)] *)
Definition String_ (e : Thrown) : string :=
  match e with
  | ErrorObject _ name "" => name
  | ErrorObject _ "" message => message
  | ErrorObject _ name message => name +:+ ": " +:+ message
  | NonError s => s
  end.

(** [error?.message || String(error)] : an empty message is falsy. *)
Definition errorMessage (e : Thrown) : string :=
  match e with
  | ErrorObject _ _ "" => String_ e
  | ErrorObject _ _ message => message
  | NonError _ => String_ e
  end.

(** [String.prototype.includes] *)
Fixpoint includes (s sub : string) : bool :=
  String.prefix sub s ||
  match s with
  | EmptyString => false
  | String _ s' => includes s' sub
  end.

Inductive Result (X : Type) : Type :=
| Ok (x : X)
| Err (e : Thrown).
Arguments Ok {X} x.
Arguments Err {X} e.

(** ** Data exchanged with the SDKs *)

(** JSON values that the backend only passes along ([toolUse.input],
    [result.content], input schemas) are kept as their serialisation, so
    [JSON.stringify] is the identity on them. *)
Definition Json := string.
Definition JSON_stringify (j : Json) : string := j.

(** SDK objects are known by identity only. *)
Definition Client := nat.
Definition Transport := nat.
Definition Provider := nat.
Definition WebSocket := nat.
Definition loc := nat.

Record McpTool : Type := {
  mcp_name : string;
  mcp_description : option string;
  inputSchema : Json;
}.

Record Tool : Type := {
  name : string;
  description : string;
  input_schema : Json;
}.

Record Listed : Type := { listed_name : string; listed_description : option string }.

Inductive Role : Type := user | assistant.

Record ToolUseBlock : Type := {
  id : string;
  tool_name : string;
  input : Json;
}.

Inductive ContentBlock : Type :=
| text_block (text : string)
| tool_use_block (b : ToolUseBlock)
| other_block (type : string).

Record ToolResult : Type := {
  tool_use_id : string;
  content : string;
}.

Inductive MessageContent : Type :=
| plain (s : string)
| blocks (bs : list ContentBlock)
| tool_results (rs : list ToolResult).

Record MessageParam : Type := {
  role : Role;
  body : MessageContent;
}.

Inductive StopReason : Type :=
| end_turn | max_tokens | stop_sequence | tool_use | pause_turn | refusal.

Record ModelResponse : Type := {
  stop_reason : StopReason;
  response_content : list ContentBlock;
}.

(** ** External operations *)

(** Each constructor is one call into an SDK that the source awaits (or, for
    [clearPendingAuth], calls synchronously on the provider object); the index
    is the type of what comes back. *)
Inductive Ext : Type -> Type :=
| callTool (c : Client) (tool : string) (arguments : Json) : Ext (Result Json)
| close (c : Client) : Ext (Result unit)
| connect (c : Client) (t : Transport) : Ext (Result unit)
| listTools (c : Client) : Ext (Result (list McpTool))
| listPrompts (c : Client) : Ext (Result (list Listed))
| listResources (c : Client) : Ext (Result (list Listed))
| finishAuth (t : Transport) (authCode : string) : Ext (Result unit)
| loadSavedTokens (p : Provider) : Ext (Result unit)
| clearPendingAuth (p : Provider) : Ext unit
| messages_create (model : string) (system : bool) (messages : list MessageParam)
    (tools : list Tool)
    : Ext (Result ModelResponse)
| setTimeout (ms : nat) : Ext unit.

(** An operation together with the answer it got. *)
Inductive Event : Type :=
| Ev (X : Type) (op : Ext X) (answer : X).
Arguments Ev {X} op answer.

(** ** Asynchronous programs *)

(** A computation over a state [St] with result [A]: [return], [throw],
    [process.exit], running out of fuel ([Bottom]), a read of the state, an
    update of it, or an external operation with the rest of the computation
    waiting for its answer.  Between two [Await] nodes a computation runs
    without interruption, as JavaScript does between two suspensions. *)
Inductive Prog (St A : Type) : Type :=
| Ret (a : A)
| Throw (e : Thrown)
| Exit (code : nat)
| Bottom
| Get (k : St -> Prog St A)
| Modify (f : St -> St) (k : Prog St A)
| Await (X : Type) (op : Ext X) (k : X -> Prog St A).
Arguments Ret {St A} a.
Arguments Throw {St A} e.
Arguments Exit {St A} code.
Arguments Bottom {St A}.
Arguments Get {St A} k.
Arguments Modify {St A} f k.
Arguments Await {St A X} op k.

Fixpoint bind {St A B} (p : Prog St A) (f : A -> Prog St B) : Prog St B :=
  match p with
  | Ret a => f a
  | Throw e => Throw e
  | Exit code => Exit code
  | Bottom => Bottom
  | Get k => Get (fun s => bind (k s) f)
  | Modify g k => Modify g (bind k f)
  | Await op k => Await op (fun x => bind (k x) f)
  end.

(** [try { p } catch (error) { handler error }] *)
Fixpoint tryCatch {St A} (p : Prog St A) (handler : Thrown -> Prog St A) : Prog St A :=
  match p with
  | Ret a => Ret a
  | Throw e => handler e
  | Exit code => Exit code
  | Bottom => Bottom
  | Get k => Get (fun s => tryCatch (k s) handler)
  | Modify g k => Modify g (tryCatch k handler)
  | Await op k => Await op (fun x => tryCatch (k x) handler)
  end.

(** A program over a part [T] of the state, run inside a larger state [St]. *)
Fixpoint zoom {St T A} (get : St -> T) (set : T -> St -> St) (p : Prog T A) : Prog St A :=
  match p with
  | Ret a => Ret a
  | Throw e => Throw e
  | Exit code => Exit code
  | Bottom => Bottom
  | Get k => Get (fun s => zoom get set (k (get s)))
  | Modify g k => Modify (fun s => set (g (get s)) s) (zoom get set k)
  | Await op k => Await op (fun x => zoom get set (k x))
  end.

Declare Scope prog_scope.
Delimit Scope prog_scope with prog.
Notation "'let*' x ':=' p 'in' q" := (bind p (fun x => q))
  (at level 10, x binder, p at level 100, q at level 200, only parsing) : prog_scope.
Notation "p ';;' q" := (bind p (fun _ => q))
  (at level 100, q at level 200, right associativity, only parsing) : prog_scope.
Open Scope prog_scope.

(** [await op] : a rejected promise is thrown at the [await]. *)
Definition await {St X} (op : Ext (Result X)) : Prog St X :=
  Await op (fun r => match r with Ok x => Ret x | Err e => Throw e end).

Definition call {St X} (op : Ext X) : Prog St X := Await op Ret.

Definition assign {St} (f : St -> St) : Prog St unit := Modify f (Ret tt).

(** ** Running a program against a world *)

(** The external parties: the answer to an operation that completes at a
    given time.  Time is the number of operations completed so far. *)
Definition World := forall X : Type, nat -> Ext X -> X.

(** The state, the time, and the operations completed so far with their
    answers, oldest first. *)
Record Config (St : Type) : Type := mkConfig {
  mem : St;
  clock : nat;
  trace : list Event;
}.
Arguments mkConfig {St} mem clock trace.
Arguments mem {St} c.
Arguments clock {St} c.
Arguments trace {St} c.

(** How a run ends. *)
Inductive Outcome (A : Type) : Type :=
| Returned (a : A)
| Thrown_ (e : Thrown)
| Exited (code : nat)
| Diverged.
Arguments Returned {A} a.
Arguments Thrown_ {A} e.
Arguments Exited {A} code.
Arguments Diverged {A}.

Fixpoint run {St A} (w : World) (p : Prog St A) (c : Config St) : Outcome A * Config St :=
  match p with
  | Ret a => (Returned a, c)
  | Throw e => (Thrown_ e, c)
  | Exit code => (Exited code, c)
  | Bottom => (Diverged, c)
  | Get k => run w (k (mem c)) c
  | Modify f k => run w k (mkConfig (f (mem c)) (clock c) (trace c))
  | Await op k =>
      let x := w _ (clock c) op in
      run w (k x) (mkConfig (mem c) (S (clock c)) (trace c ++ [Ev op x]))
  end.

(** ** The MCP session ([index.ts], "MCP CLIENT SETUP") *)

(** The module-level variables.  [constructed] counts the SDK objects built
    with [new] so far and gives each one its identity. *)
Record Globals : Type := mkGlobals {
  mcpClient : option Client;
  mcpTransport : option Transport;
  oauthProvider : option Provider;
  availableTools : list Tool;
  constructed : nat;
}.

Definition start : Globals := mkGlobals None None None [] 0.

Definition set_mcpClient (v : option Client) (g : Globals) : Globals :=
  mkGlobals v (mcpTransport g) (oauthProvider g) (availableTools g) (constructed g).
Definition set_mcpTransport (v : option Transport) (g : Globals) : Globals :=
  mkGlobals (mcpClient g) v (oauthProvider g) (availableTools g) (constructed g).
Definition set_oauthProvider (v : option Provider) (g : Globals) : Globals :=
  mkGlobals (mcpClient g) (mcpTransport g) v (availableTools g) (constructed g).
Definition set_availableTools (v : list Tool) (g : Globals) : Globals :=
  mkGlobals (mcpClient g) (mcpTransport g) (oauthProvider g) v (constructed g).
Definition set_constructed (v : nat) (g : Globals) : Globals :=
  mkGlobals (mcpClient g) (mcpTransport g) (oauthProvider g) (availableTools g) v.

(** [new Client(...)], [new StreamableHTTPClientTransport(...)],
    [new SimpleOAuthProvider(...)]: a fresh identity.  The URL constant is
    taken to be well formed, so [new URL(...)] does not throw. *)
Definition new : Prog Globals nat :=
  Get (fun g => Modify (set_constructed (S (constructed g))) (Ret (constructed g))).

(** [mcpClient.m(...)] / [mcpClient!.m(...)] where the variable is read after
    a suspension: the live value, and a [TypeError] on [null]. *)
Definition theClient (method : string) : Prog Globals Client :=
  Get (fun g =>
    match mcpClient g with
    | Some c => Ret c
    | None => Throw (nullDereference method)
    end).

Definition theProvider (method : string) : Prog Globals Provider :=
  Get (fun g =>
    match oauthProvider g with
    | Some p => Ret p
    | None => Throw (nullDereference method)
    end).

(** [toolsResponse.tools.map(tool => ({ name, description: tool.description || "", input_schema }))] *)
Definition toAnthropicTool (tool : McpTool) : Tool :=
  {| name := mcp_name tool;
     description := default "" (mcp_description tool);
     input_schema := inputSchema tool |}.

(** [try { await mcpClient.listPrompts(); ... } catch (error) { console.log(...) }] *)
Definition tryListPrompts : Prog Globals unit :=
  tryCatch
    (let* c := theClient "listPrompts" in
     let* _ := await (listPrompts c) in
     Ret tt)
    (fun _ => Ret tt).

Definition tryListResources : Prog Globals unit :=
  tryCatch
    (let* c := theClient "listResources" in
     let* _ := await (listResources c) in
     Ret tt)
    (fun _ => Ret tt).

Definition initializeMCPClient : Prog Globals unit :=
  tryCatch
    (let* p := new in
     assign (set_oauthProvider (Some p));;
     await (loadSavedTokens p);;
     let* t := new in
     assign (set_mcpTransport (Some t));;
     let* c := new in
     assign (set_mcpClient (Some c));;
     await (connect c t);;
     let* c := theClient "listTools" in
     let* toolsResponse := await (listTools c) in
     assign (set_availableTools (map toAnthropicTool toolsResponse));;
     tryListPrompts;;
     tryListResources)
    (fun error =>
       if instanceofUnauthorizedError error
       then Ret tt
       else Throw error).

Definition initializeTools : Prog Globals unit :=
  Get (fun g =>
    match mcpClient g with
    | None => Throw (newError "MCP client not initialized")
    | Some c =>
        let* toolsResponse := await (listTools c) in
        assign (set_availableTools (map toAnthropicTool toolsResponse));;
        tryListPrompts;;
        tryListResources
    end).

Definition reconnectAfterAuth (authCode : string) : Prog Globals unit :=
  Get (fun g =>
    match mcpTransport g, oauthProvider g with
    | Some t, Some _ =>
        await (finishAuth t authCode);;
        let* p := theProvider "clearPendingAuth" in
        call (clearPendingAuth p);;
        initializeTools
    | _, _ => Throw (newError "OAuth provider not initialized")
    end).

Definition reconnectMCPSession : Prog Globals unit :=
  Get (fun g =>
    match mcpClient g with
    | Some c => await (close c)
    | None => Ret tt
    end);;
  Get (fun g =>
    match oauthProvider g with
    | None => Throw (newError "OAuth provider not initialized")
    | Some _ =>
        let* t := new in
        assign (set_mcpTransport (Some t));;
        let* c := new in
        assign (set_mcpClient (Some c));;
        await (connect c t);;
        initializeTools
    end).

(** [startup]: a failure of [initializeMCPClient] ends the process
    ([process.exit(1)]); what follows a success only logs. *)
Definition startup : Prog Globals unit :=
  tryCatch initializeMCPClient (fun _ => Exit 1).

(** The [/health] route. *)
Record Health : Type := {
  status : string;
  mcpConnected : bool;
  toolsAvailable : nat;
}.

Definition health (g : Globals) : Health :=
  {| status := "ok";
     mcpConnected := bool_decide (mcpClient g <> None);
     toolsAvailable := length (availableTools g) |}.

(** ** One tool invocation with its retry loop
    ([processMessageWithClaude], the function mapped over [toolUseBlocks]) *)

Definition maxRetries : nat := 2.

Definition sessionExpired (error : Thrown) : bool :=
  includes (errorMessage error) "Session not found or expired".

(** How one iteration of [while (retries < maxRetries)] ends, when it does
    not throw: [return result] or [retries++; continue]. *)
Inductive Control : Type :=
| return_ (r : ToolResult)
| continue_ (retries : nat).

Definition attempt (toolUse : ToolUseBlock) (retries : nat) : Prog Globals Control :=
  tryCatch
    (let* c := theClient "callTool" in
     let* result := await (callTool c (tool_name toolUse) (input toolUse)) in
     Ret (return_ {| tool_use_id := id toolUse; content := JSON_stringify result |}))
    (fun error =>
       if sessionExpired error && (retries <? maxRetries - 1)%nat
       then reconnectMCPSession;; Ret (continue_ (retries + 1))
       else Throw error).

(** The [while] loop; [None] stands for leaving the loop through its guard
    (the statement after the loop is reached).  [fuel] bounds the number of
    guard evaluations. *)
Fixpoint retryLoop (fuel : nat) (toolUse : ToolUseBlock) (retries : nat)
  : Prog Globals (option ToolResult) :=
  match fuel with
  | 0 => Bottom
  | S fuel' =>
      if (retries <? maxRetries)%nat then
        let* ctl := attempt toolUse retries in
        match ctl with
        | return_ r => Ret (Some r)
        | continue_ retries' => retryLoop fuel' toolUse retries'
        end
      else Ret None
  end.

Definition afterLoopError (toolUse : ToolUseBlock) : Thrown :=
  newError ("Failed to call tool " +:+ tool_name toolUse +:+ " after 2 attempts").

Definition callToolWithRetry (toolUse : ToolUseBlock) : Prog Globals ToolResult :=
  let* r := retryLoop (S maxRetries) toolUse 0 in
  match r with
  | Some result => Ret result
  | None => Throw (afterLoopError toolUse)
  end.

(** ** [Promise.all] over [async] functions *)

(** An [async] function that has run up to its next suspension. *)
Inductive Task (St B : Type) : Type :=
| Fulfilled (b : B)
| Rejected (e : Thrown)
| Pending (X : Type) (op : Ext X) (k : X -> Prog St B).
Arguments Fulfilled {St B} b.
Arguments Rejected {St B} e.
Arguments Pending {St B X} op k.

(** Run the synchronous stretch of a task, up to its next [await]. *)
Fixpoint advance {St B} (p : Prog St B) : Prog St (Task St B) :=
  match p with
  | Ret b => Ret (Fulfilled b)
  | Throw e => Ret (Rejected e)
  | Exit code => Exit code
  | Bottom => Bottom
  | Get k => Get (fun s => advance (k s))
  | Modify f k => Modify f (advance k)
  | Await op k => Ret (Pending op k)
  end.

(** [ps.map(async ...)]: every function runs, in order, up to its first
    [await]. *)
Fixpoint advanceAll {St B} (ps : list (Prog St B)) : Prog St (list (Task St B)) :=
  match ps with
  | [] => Ret []
  | p :: ps' =>
      let* t := advance p in
      let* ts := advanceAll ps' in
      Ret (t :: ts)
  end.

Fixpoint firstRejected {St B} (ts : list (Task St B)) : option Thrown :=
  match ts with
  | [] => None
  | Rejected e :: _ => Some e
  | _ :: ts' => firstRejected ts'
  end.

Fixpoint allFulfilled {St B} (ts : list (Task St B)) : option (list B) :=
  match ts with
  | [] => Some []
  | Fulfilled b :: ts' => cons b <$> allFulfilled ts'
  | _ :: _ => None
  end.

(** The event loop while [await Promise.all(...)] is suspended.  [sched]
    lists, in completion order, the index of the task whose pending
    operation completes next; the resumed task runs to its next [await].
    The promise rejects with the first rejection and fulfils, with the
    values in the order of the tasks, once every task has fulfilled.  When
    it rejects, the tasks still pending are no longer followed. *)
Fixpoint drive {St B} (sched : list nat) (ts : list (Task St B)) : Prog St (list B) :=
  match firstRejected ts with
  | Some e => Throw e
  | None =>
      match allFulfilled ts with
      | Some values => Ret values
      | None =>
          match sched with
          | [] => Bottom
          | i :: sched' =>
              match ts !! i with
              | Some (Pending op k) =>
                  Await op (fun x =>
                    let* t := advance (k x) in
                    drive sched' (<[i:=t]> ts))
              | _ => drive sched' ts
              end
          end
      end
  end.

Definition promiseAll {St B} (ps : list (Prog St B)) (sched : list nat) : Prog St (list B) :=
  let* ts := advanceAll ps in
  drive sched ts.

(** ** The orchestrator ([index.ts], "CLAUDE AI INTEGRATION") *)

(** The module state together with the arrays of messages (held by
    reference), the per-socket map and what has been sent on each socket. *)
Record Mem : Type := mkMem {
  session : Globals;
  arrays : gmap loc (list MessageParam);
  conversationHistories : gmap WebSocket loc;
  sent : list (WebSocket * string);
}.

Definition set_session (v : Globals) (m : Mem) : Mem :=
  mkMem v (arrays m) (conversationHistories m) (sent m).
Definition set_arrays (v : gmap loc (list MessageParam)) (m : Mem) : Mem :=
  mkMem (session m) v (conversationHistories m) (sent m).
Definition set_conversationHistories (v : gmap WebSocket loc) (m : Mem) : Mem :=
  mkMem (session m) (arrays m) v (sent m).
Definition set_sent (v : list (WebSocket * string)) (m : Mem) : Mem :=
  mkMem (session m) (arrays m) (conversationHistories m) v.

Definition inSession {A} (p : Prog Globals A) : Prog Mem A := zoom session set_session p.

(** An array literal / [slice] / spread: a new array. *)
Definition newArray (init : list MessageParam) : Prog Mem loc :=
  Get (fun m =>
    let l := fresh (dom (arrays m)) in
    Modify (fun m => set_arrays (<[l:=init]> (arrays m)) m) (Ret l)).

Definition readArray (l : loc) : Prog Mem (list MessageParam) :=
  Get (fun m => Ret (default [] (arrays m !! l))).

(** [a.push(v)] *)
Definition push (l : loc) (v : MessageParam) : Prog Mem unit :=
  assign (fun m => set_arrays (alter (fun a => a ++ [v]) l (arrays m)) m).

(** [ws.send(data)] on a socket that stays open for the turn. *)
Definition send (ws : WebSocket) (data : string) : Prog Mem unit :=
  assign (fun m => set_sent (sent m ++ [(ws, data)]) m).

(** [anthropic.messages.create({ model: "claude-haiku-4-5", ..., messages,
    tools: availableTools })]; [system] tells whether the system prompt is
    passed. *)
Definition createMessage (system : bool) (messages : loc) : Prog Mem ModelResponse :=
  let* msgs := readArray messages in
  Get (fun m =>
    await (messages_create "claude-haiku-4-5" system msgs (availableTools (session m)))).

Definition asToolUse (block : ContentBlock) : option ToolUseBlock :=
  match block with tool_use_block b => Some b | _ => None end.

Definition asText (block : ContentBlock) : option string :=
  match block with text_block t => Some t | _ => None end.

(** [content.filter(block => block.type === "tool_use")] *)
Definition filterToolUse (blocks : list ContentBlock) : list ToolUseBlock :=
  omap asToolUse blocks.

(** [content.find(block => block.type === "text")] *)
Definition findText (blocks : list ContentBlock) : option string :=
  head (omap asText blocks).

(** [while (response.stop_reason === "tool_use") { ... }]; the result is the
    response on which the loop is left.  [schedule round] is the completion
    order met by the [Promise.all] of round [round]. *)
Fixpoint toolUseLoop (fuel : nat) (schedule : nat -> list nat) (round : nat)
    (messages : loc) (response : ModelResponse) : Prog Mem ModelResponse :=
  match fuel with
  | 0 => Bottom
  | S fuel' =>
      match stop_reason response with
      | tool_use =>
          let toolUseBlocks := filterToolUse (response_content response) in
          if (length toolUseBlocks =? 0)%nat then Ret response
          else
            push messages {| role := assistant; body := blocks (response_content response) |};;
            let* toolResults :=
              inSession (promiseAll (map callToolWithRetry toolUseBlocks) (schedule round)) in
            push messages {| role := user; body := tool_results toolResults |};;
            let* response' := createMessage false messages in
            toolUseLoop fuel' schedule (S round) messages response'
      | _ => Ret response
      end
  end.

(** [String.prototype.split(" ")] *)
Fixpoint split_space (s : string) : list string :=
  match s with
  | EmptyString => [""]
  | String c s' =>
      if Ascii.eqb c Ascii.Space then "" :: split_space s'
      else
        match split_space s' with
        | w :: ws => String c w :: ws
        | [] => [String c ""]
        end
  end.

Fixpoint forEach {St A} (xs : list A) (body : A -> Prog St unit) : Prog St unit :=
  match xs with
  | [] => Ret tt
  | x :: xs' => body x;; forEach xs' body
  end.

(** [words[i]], or [words[i] + " "] before the last index. *)
Definition wordAt (words : list string) (i : nat) : string :=
  if (i =? length words - 1)%nat then default "" (words !! i)
  else default "" (words !! i) +:+ " ".

Definition END : string := "[END]".

(** What the [for] loop over [fullText.split(" ")] sends, in order. *)
Definition chunks (fullText : string) : list string :=
  let words := split_space fullText in
  map (wordAt words) (seq 0 (length words)).

(** "Stream the final response" *)
Definition streamFinal (ws : WebSocket) (response : ModelResponse) : Prog Mem unit :=
  match findText (response_content response) with
  | Some fullText =>
      let words := split_space fullText in
      forEach (seq 0 (length words)) (fun i =>
        send ws (wordAt words i);;
        call (setTimeout 10))
  | None => Ret tt
  end;;
  send ws END.

(** The [try] block up to the end of the tool loop. *)
Definition converse (fuel : nat) (schedule : nat -> list nat)
    (userMessage : string) (conversationHistory : loc) : Prog Mem ModelResponse :=
  let* history := readArray conversationHistory in
  let* messages :=
    newArray (map (fun msg => {| role := role msg; body := body msg |}) history
              ++ [ {| role := user; body := plain userMessage |} ]) in
  let* response := createMessage true messages in
  toolUseLoop fuel schedule 0 messages response.

Definition tryBlock (fuel : nat) (schedule : nat -> list nat)
    (userMessage : string) (conversationHistory : loc) (ws : WebSocket) : Prog Mem unit :=
  let* response := converse fuel schedule userMessage conversationHistory in
  streamFinal ws response.

(** [error instanceof Error ? error.message : "Unknown error"] *)
Definition reportedMessage (error : Thrown) : string :=
  match error with
  | ErrorObject _ _ message => message
  | NonError _ => "Unknown error"
  end.

Definition catchBlock (ws : WebSocket) (error : Thrown) : Prog Mem unit :=
  send ws ("Error: " +:+ reportedMessage error);;
  send ws END.

Definition processMessageWithClaude (fuel : nat) (schedule : nat -> list nat)
    (userMessage : string) (conversationHistory : loc) (ws : WebSocket) : Prog Mem unit :=
  tryCatch (tryBlock fuel schedule userMessage conversationHistory ws) (catchBlock ws).

(** ** The WebSocket server *)

(** [wss.on("connection", ...)] *)
Definition onConnection (ws : WebSocket) : Prog Mem unit :=
  let* l := newArray [] in
  assign (fun m => set_conversationHistories (<[ws:=l]> (conversationHistories m)) m).

(** [ws.on("message", ...)] *)
Definition onMessage (fuel : nat) (schedule : nat -> list nat)
    (ws : WebSocket) (data : string) : Prog Mem unit :=
  let userMessage := data in
  let* history :=
    Get (fun m =>
      match conversationHistories m !! ws with
      | Some l => Ret l
      | None => newArray []
      end) in
  push history {| role := user; body := plain userMessage |};;
  let* h := readArray history in
  let* copy := newArray (take (length h - 1) h) in
  processMessageWithClaude fuel schedule userMessage copy ws.

(** [ws.on("close", ...)] *)
Definition onClose (ws : WebSocket) : Prog Mem unit :=
  assign (fun m => set_conversationHistories (delete ws (conversationHistories m)) m).

(** ** The HTTP routes *)

(** A query parameter of the request, [None] when it is absent.
    [if (code)] holds for a parameter that is present and not empty. *)
Definition truthy (parameter : option string) : bool :=
  match parameter with
  | Some "" => false
  | Some _ => true
  | None => false
  end.

(** The four bodies that the OAuth callback route can send, by what varies
    in them: the fixed HTML around the inserted text is left out. *)
Inductive Page : Type :=
| AuthenticationSuccessful
| AuthenticationFailed (message : string)
| AuthorizationFailed (error : string)
| InvalidOAuthCallback.

(** [res.status(n).send(page)]; [res.send(page)] answers with status 200. *)
Record Response : Type := {
  statusCode : nat;
  page : Page;
}.

(** [app.get("/oauth/callback", ...)] *)
Definition oauthCallback (code error : option string) : Prog Globals Response :=
  if truthy code then
    tryCatch
      (reconnectAfterAuth (default "" code);;
       Ret {| statusCode := 200; page := AuthenticationSuccessful |})
      (fun err =>
         Ret {| statusCode := 500; page := AuthenticationFailed (reportedMessage err) |})
  else if truthy error then
    Ret {| statusCode := 400; page := AuthorizationFailed (default "" error) |}
  else
    Ret {| statusCode := 400; page := InvalidOAuthCallback |}.

(** The [/tools] route: [availableTools.map(tool => ({ name, description }))]. *)
Record ToolSummary : Type := {
  summary_name : string;
  summary_description : string;
}.

Definition toolsRoute (g : Globals) : list ToolSummary :=
  map (fun tool => {| summary_name := name tool; summary_description := description tool |})
    (availableTools g).

(** ** The older backend ([src/unnamed/part_000]) *)

Module Part000.

(** [anthropic.messages.create({ model: "claude-3-5-sonnet-20241022", ...,
    messages, tools: availableTools })] *)
Definition createMessage (system : bool) (messages : loc) : Prog Mem ModelResponse :=
  let* msgs := readArray messages in
  Get (fun m =>
    await (messages_create "claude-3-5-sonnet-20241022" system msgs
             (availableTools (session m)))).

(** [content.find(block => block.type === "tool_use")] *)
Definition findToolUse (blocks : list ContentBlock) : option ToolUseBlock :=
  head (omap asToolUse blocks).

Fixpoint toolUseLoop (fuel : nat) (messages : loc) (response : ModelResponse)
  : Prog Mem ModelResponse :=
  match fuel with
  | 0 => Bottom
  | S fuel' =>
      match stop_reason response with
      | tool_use =>
          match findToolUse (response_content response) with
          | None => Ret response
          | Some toolUse =>
              let* toolResult :=
                inSession
                  (let* c := theClient "callTool" in
                   await (callTool c (tool_name toolUse) (input toolUse))) in
              push messages {| role := assistant; body := blocks (response_content response) |};;
              push messages
                {| role := user;
                   body := tool_results
                     [ {| tool_use_id := id toolUse; content := JSON_stringify toolResult |} ] |};;
              let* response' := createMessage false messages in
              toolUseLoop fuel' messages response'
          end
      | _ => Ret response
      end
  end.

Definition converse (fuel : nat) (userMessage : string) (conversationHistory : loc)
  : Prog Mem ModelResponse :=
  let* history := readArray conversationHistory in
  let* messages :=
    newArray (map (fun msg => {| role := role msg; body := body msg |}) history
              ++ [ {| role := user; body := plain userMessage |} ]) in
  let* response := createMessage true messages in
  toolUseLoop fuel messages response.

Definition processMessageWithClaude (fuel : nat)
    (userMessage : string) (conversationHistory : loc) (ws : WebSocket) : Prog Mem unit :=
  tryCatch
    (let* response := converse fuel userMessage conversationHistory in
     streamFinal ws response)
    (catchBlock ws).

(** [initializeMCPClient] of the older backend: a WebSocket transport kept
    in a local constant, no OAuth provider, and a [catch] that rethrows
    whatever it gets. *)
Definition initializeMCPClient : Prog Globals unit :=
  tryCatch
    (let* transport := new in
     let* c := new in
     assign (set_mcpClient (Some c));;
     await (connect c transport);;
     let* c := theClient "listTools" in
     let* toolsResponse := await (listTools c) in
     assign (set_availableTools (map toAnthropicTool toolsResponse));;
     tryListPrompts;;
     tryListResources)
    (fun error => Throw error).

Definition startup : Prog Globals unit :=
  tryCatch initializeMCPClient (fun _ => Exit 1).

End Part000.

(** * Properties *)

(** ** How [run] goes through the combinators *)

Section Run.
Context {St : Type} (w : World).

Definition carry {A B} (o : Outcome A) : Outcome B :=
  match o with
  | Returned _ => Diverged
  | Thrown_ e => Thrown_ e
  | Exited code => Exited code
  | Diverged => Diverged
  end.

Lemma run_bind {A B} (p : Prog St A) (f : A -> Prog St B) c :
  run w (bind p f) c =
    match run w p c with
    | (Returned a, c') => run w (f a) c'
    | (o, c') => (carry o, c')
    end.
Proof.
  revert c. induction p as [| | | |k IH|g k IH|X op k IH]; intros c; simpl; auto.
Qed.

Lemma run_tryCatch {A} (p : Prog St A) (handler : Thrown -> Prog St A) c :
  run w (tryCatch p handler) c =
    match run w p c with
    | (Thrown_ e, c') => run w (handler e) c'
    | r => r
    end.
Proof.
  revert c. induction p as [| | | |k IH|g k IH|X op k IH]; intros c; simpl; auto.
Qed.

(** Time only moves forward, and the trace only grows. *)
Lemma run_extends {A} (p : Prog St A) c o c' :
  run w p c = (o, c') ->
  exists events, trace c' = trace c ++ events /\ clock c' = clock c + length events.
Proof.
  revert c. induction p as [| | | |k IH|g k IH|X op k IH]; intros c; simpl; intros Hrun;
    try (injection Hrun as <- <-; exists []; rewrite app_nil_r; simpl; split; [done | lia]).
  - eauto.
  - apply IH in Hrun. simpl in Hrun. eauto.
  - apply IH in Hrun as (events & Htrace & Hclock). simpl in *.
    exists (Ev op (w X (clock c) op) :: events). split.
    + by rewrite Htrace, <- app_assoc.
    + simpl. lia.
Qed.

Lemma run_clock {A} (p : Prog St A) c o c' :
  run w p c = (o, c') -> clock c <= clock c'.
Proof. intros (events & _ & ->)%run_extends. lia. Qed.

End Run.

Lemma run_inSession {A} (w : World) (p : Prog Globals A) m t tr :
  run w (inSession p) (mkConfig m t tr) =
    let '(o, c') := run w p (mkConfig (session m) t tr) in
    (o, mkConfig (set_session (mem c') m) (clock c') (trace c')).
Proof.
  unfold inSession. revert m t tr.
  induction p as [| | | |k IH|g k IH|X op k IH]; intros m t tr; simpl.
  1-4: by destruct m.
  - apply IH.
  - rewrite IH. simpl. by destruct (run w k _) as [o c'].
  - apply IH.
Qed.

(** ** A program logic for [Prog]

    [obeys R Q p]: every update that [p] can make is a step of the relation
    [R], and every way in which [p] can end satisfies [Q]. *)

Fixpoint obeys {St A} (R : St -> St -> Prop) (Q : Outcome A -> Prop) (p : Prog St A) : Prop :=
  match p with
  | Ret a => Q (Returned a)
  | Throw e => Q (Thrown_ e)
  | Exit code => Q (Exited code)
  | Bottom => Q Diverged
  | Get k => forall s, obeys R Q (k s)
  | Modify f k => (forall s, R s (f s)) /\ obeys R Q k
  | Await op k => forall x, obeys R Q (k x)
  end.

(** Side condition of [obeys_bind]: the outcomes that are not a [return]. *)
Ltac carried :=
  let a := fresh "a" in
  let Hne := fresh "Hne" in
  intros [a| | |] ? Hne; simpl in *;
  try (by destruct (Hne a)); try done; try (split; [done|]); try done.

Definition anyOutcome {A} : Outcome A -> Prop := fun _ => True.
Definition anyStep {St} : St -> St -> Prop := fun _ _ => True.

#[global] Instance anyStep_preorder {St} : PreOrder (@anyStep St).
Proof. by split. Qed.

Section Obeys.
Context {St : Type} (R : St -> St -> Prop).

Lemma obeys_run `{!PreOrder R} {A} (Q : Outcome A -> Prop) w (p : Prog St A) c o c' :
  obeys R Q p -> run w p c = (o, c') -> R (mem c) (mem c') /\ Q o.
Proof.
  revert c. induction p as [| | | |k IH|g k IH|X op k IH]; intros c; simpl; intros Hp Hrun;
    try (injection Hrun as <- <-; done).
  - eauto.
  - destruct Hp as [Hg Hk]. destruct (IH _ Hk Hrun) as [HR HQ]. simpl in HR.
    split; [|done]. transitivity (g (mem c)); [apply Hg | done].
  - by destruct (IH _ _ (Hp _) Hrun).
Qed.

Lemma obeys_weaken {A} (Q Q' : Outcome A -> Prop) (p : Prog St A) :
  (forall o, Q o -> Q' o) -> obeys R Q p -> obeys R Q' p.
Proof.
  intros HQ. induction p as [| | | |k IH|g k IH|X op k IH]; simpl; auto.
  intros [? ?]. auto.
Qed.

Lemma obeys_bind {A B} (Q : Outcome A -> Prop) (Q' : Outcome B -> Prop)
    (p : Prog St A) (f : A -> Prog St B) :
  obeys R Q p ->
  (forall a, Q (Returned a) -> obeys R Q' (f a)) ->
  (forall o : Outcome A, Q o -> (forall a, o <> Returned a) -> Q' (carry o)) ->
  obeys R Q' (bind p f).
Proof.
  intros Hp Hf Hcarry.
  induction p as [| | | |k IH|g k IH|X op k IH]; simpl in *; auto;
    try (by apply (Hcarry _ Hp)).
  destruct Hp. auto.
Qed.

Lemma obeys_tryCatch {A} (Q Q' : Outcome A -> Prop) (p : Prog St A) handler :
  obeys R Q p ->
  (forall e, Q (Thrown_ e) -> obeys R Q' (handler e)) ->
  (forall o, Q o -> (forall e, o <> Thrown_ e) -> Q' o) ->
  obeys R Q' (tryCatch p handler).
Proof.
  intros Hp Hh Hpass.
  induction p as [| | | |k IH|g k IH|X op k IH]; simpl in *; auto;
    try (by apply (Hpass _ Hp)).
  destruct Hp. auto.
Qed.

(** What a part of the program does to its own part of the state, seen
    from outside. *)
Lemma obeys_zoom_rel {T A} (R' : T -> T -> Prop) (Q : Outcome A -> Prop)
    (get : St -> T) (set : T -> St -> St) (p : Prog T A) :
  (forall s t', R' (get s) t' -> R s (set t' s)) ->
  obeys R' Q p -> obeys R Q (zoom get set p).
Proof.
  intros Hset. induction p as [| | | |k IH|g k IH|X op k IH]; simpl; auto.
  intros [Hg Hk]. split; [|auto]. intros s. apply Hset, Hg.
Qed.

Lemma obeys_zoom {T A} (Q : Outcome A -> Prop) (get : St -> T) (set : T -> St -> St)
    (p : Prog T A) :
  (forall t s, R s (set t s)) ->
  obeys anyStep Q p -> obeys R Q (zoom get set p).
Proof. intros Hset. apply obeys_zoom_rel. intros s t' _. apply Hset. Qed.

Lemma obeys_both {A} (Q Q' : Outcome A -> Prop) (p : Prog St A) :
  obeys R Q p -> obeys anyStep Q' p -> obeys R (fun o => Q o /\ Q' o) p.
Proof.
  induction p as [| | | |k IH|g k IH|X op k IH]; simpl; auto.
  intros [Hg Hk] [_ Hk']. auto.
Qed.

Lemma obeys_forEach {A} (xs : list A) (body : A -> Prog St unit) :
  (forall x, obeys R (fun o => o = Returned tt) (body x)) ->
  obeys R (fun o => o = Returned tt) (forEach xs body).
Proof.
  intros Hbody. induction xs as [|x xs IH]; simpl; [done|].
  eapply obeys_bind; [apply Hbody | auto |].
  intros o -> Hne. by destruct (Hne tt).
Qed.

(** *** [Promise.all] *)

Definition taskObeys {B} (Q : Outcome B -> Prop) (t : Task St B) : Prop :=
  match t with
  | Fulfilled b => Q (Returned b)
  | Rejected e => Q (Thrown_ e)
  | Pending op k => forall x, obeys R Q (k x)
  end.

Lemma obeys_advance {B} (Q : Outcome B -> Prop) (p : Prog St B) :
  obeys R Q p ->
  obeys R (fun o => match o with
                    | Returned t => taskObeys Q t
                    | Thrown_ _ => False
                    | Exited code => Q (Exited code)
                    | Diverged => Q Diverged
                    end) (advance p).
Proof.
  induction p as [| | | |k IH|g k IH|X op k IH]; simpl; auto.
  intros [? ?]. auto.
Qed.

End Obeys.

(** ** The session functions, step by step *)

(** A promise settles: it fulfils or rejects (the process does not exit,
    and the model does not run out of fuel). *)
Definition settles {A} (o : Outcome A) : Prop :=
  match o with
  | Returned _ | Thrown_ _ => True
  | Exited _ | Diverged => False
  end.

Lemma reconnectMCPSession_settles : obeys anyStep settles reconnectMCPSession.
Proof.
  unfold reconnectMCPSession, initializeTools, tryListPrompts, tryListResources.
  simpl. intros g. destruct (mcpClient g); simpl.
  - intros [[]|e]; simpl; [|done]. intros g1. destruct (oauthProvider g1); simpl; [|done].
    repeat (split; [done|]). intros [[]|e]; simpl; [|done].
    intros g2. destruct (mcpClient g2); simpl; [|done].
    intros [tools|e]; simpl; [|done]. split; [done|].
    intros g3. destruct (mcpClient g3); simpl.
    + intros [?|?]; simpl; intros g4; destruct (mcpClient g4); simpl; try done;
        intros [?|?]; done.
    + intros g4; destruct (mcpClient g4); simpl; try done. intros [?|?]; done.
  - intros g1. destruct (oauthProvider g1); simpl; [|done].
    repeat (split; [done|]). intros [[]|e]; simpl; [|done].
    intros g2. destruct (mcpClient g2); simpl; [|done].
    intros [tools|e]; simpl; [|done]. split; [done|].
    intros g3. destruct (mcpClient g3); simpl.
    + intros [?|?]; simpl; intros g4; destruct (mcpClient g4); simpl; try done;
        intros [?|?]; done.
    + intros g4; destruct (mcpClient g4); simpl; try done. intros [?|?]; done.
Qed.

Section Session.
Context (w : World).

Lemma run_reconnectMCPSession_clock g t tr c o c2 :
  mcpClient g = Some c ->
  run w reconnectMCPSession (mkConfig g t tr) = (o, c2) ->
  S t <= clock c2.
Proof.
  intros Hc. unfold reconnectMCPSession. simpl. rewrite Hc. simpl.
  intros Hrun%run_clock. done.
Qed.

Lemma run_tryListPrompts g t tr c :
  mcpClient g = Some c ->
  run w tryListPrompts (mkConfig g t tr) =
    (Returned tt, mkConfig g (S t) (tr ++ [Ev (listPrompts c) (w _ t (listPrompts c))])).
Proof.
  intros Hc. unfold tryListPrompts. simpl. rewrite Hc. simpl.
  by destruct (w _ t (listPrompts c)).
Qed.

Lemma run_tryListResources g t tr c :
  mcpClient g = Some c ->
  run w tryListResources (mkConfig g t tr) =
    (Returned tt, mkConfig g (S t) (tr ++ [Ev (listResources c) (w _ t (listResources c))])).
Proof.
  intros Hc. unfold tryListResources. simpl. rewrite Hc. simpl.
  by destruct (w _ t (listResources c)).
Qed.

Opaque tryListPrompts tryListResources.

(** The events of a catalogue refresh on client [c] that starts at time [t]
    and gets the tools [tools]. *)
Definition refreshEvents (c : Client) (t : nat) (tools : list McpTool) : list Event :=
  [ Ev (listTools c) (Ok tools);
    Ev (listPrompts c) (w _ (S t) (listPrompts c));
    Ev (listResources c) (w _ (S (S t)) (listResources c)) ].

Lemma run_initializeTools g t tr c :
  mcpClient g = Some c ->
  run w initializeTools (mkConfig g t tr) =
    match w _ t (listTools c) with
    | Ok tools =>
        (Returned tt,
         mkConfig (set_availableTools (map toAnthropicTool tools) g) (S (S (S t)))
           (tr ++ refreshEvents c t tools))
    | Err e => (Thrown_ e, mkConfig g (S t) (tr ++ [Ev (listTools c) (Err e)]))
    end.
Proof.
  intros Hc. unfold initializeTools. simpl. rewrite Hc. simpl.
  destruct (w _ t (listTools c)) as [tools|e]; simpl; [|done].
  rewrite run_bind, (run_tryListPrompts _ _ _ c) by done.
  rewrite (run_tryListResources _ _ _ c) by done.
  unfold refreshEvents. by rewrite <- !app_assoc.
Qed.

Opaque initializeTools.

(** The configuration in which [reconnectMCPSession], started at time [t]
    with [c] as the current client, returns after getting [tools]. *)
Definition reconnected (g : Globals) (t : nat) (tr : list Event) (c : Client)
    (tools : list McpTool) : Config Globals :=
  let t' := constructed g in
  let c' := S (constructed g) in
  mkConfig
    (mkGlobals (Some c') (Some t') (oauthProvider g) (map toAnthropicTool tools)
       (S (S (constructed g))))
    (t + 5)
    (tr ++ [Ev (close c) (Ok tt); Ev (connect c' t') (Ok tt)]
        ++ refreshEvents c' (S (S t)) tools).


Lemma run_reconnectMCPSession g t tr c tools :
  mcpClient g = Some c ->
  is_Some (oauthProvider g) ->
  w _ t (close c) = Ok tt ->
  w _ (S t) (connect (S (constructed g)) (constructed g)) = Ok tt ->
  w _ (S (S t)) (listTools (S (constructed g))) = Ok tools ->
  run w reconnectMCPSession (mkConfig g t tr) = (Returned tt, reconnected g t tr c tools).
Proof.
  intros Hc [p Hp] Hclose Hconnect Htools.
  unfold reconnectMCPSession. simpl. rewrite Hc. simpl. rewrite Hclose. simpl.
  rewrite Hp. simpl. rewrite Hconnect. simpl.
  erewrite run_initializeTools by done. rewrite Htools.
  unfold reconnected. simpl. f_equal. f_equal; [lia|].
  by rewrite <- !app_assoc.
Qed.

End Session.

Opaque tryListPrompts tryListResources initializeTools reconnectMCPSession.

(** ** One tool invocation *)

Section Invocation.
Context (w : World) (toolUse : ToolUseBlock).

Definition result_of (result : Json) : ToolResult :=
  {| tool_use_id := id toolUse; content := JSON_stringify result |}.

(** The configuration right after an attempt on client [c] at time [t]. *)
Definition attempted (g : Globals) (t : nat) (tr : list Event) (c : Client)
    (answer : Result Json) : Config Globals :=
  mkConfig g (S t) (tr ++ [Ev (callTool c (tool_name toolUse) (input toolUse)) answer]).

Lemma run_attempt g t tr c retries :
  mcpClient g = Some c ->
  run w (attempt toolUse retries) (mkConfig g t tr) =
    let answer := w _ t (callTool c (tool_name toolUse) (input toolUse)) in
    match answer with
    | Ok result => (Returned (return_ (result_of result)), attempted g t tr c answer)
    | Err e =>
        if sessionExpired e && (retries <? maxRetries - 1)%nat then
          match run w reconnectMCPSession (attempted g t tr c answer) with
          | (Returned _, c2) => (Returned (continue_ (retries + 1)), c2)
          | (o, c2) => (carry o, c2)
          end
        else (Thrown_ e, attempted g t tr c answer)
    end.
Proof.
  intros Hc. unfold attempt. simpl. rewrite Hc. simpl.
  destruct (w _ t (callTool c _ _)) as [result|e]; simpl; [done|].
  destruct (sessionExpired e && _); simpl; [|done].
  rewrite run_bind. unfold attempted.
  match goal with
  | |- context [run w reconnectMCPSession ?cfg] =>
      by destruct (run w reconnectMCPSession cfg) as [[[]| | |] ?]
  end.
Qed.

Lemma run_attempt_null g t tr retries :
  mcpClient g = None ->
  run w (attempt toolUse retries) (mkConfig g t tr) =
    (Thrown_ (nullDereference "callTool"), mkConfig g t tr).
Proof. intros Hc. unfold attempt. simpl. rewrite Hc. done. Qed.

(** Every path through one iteration. *)
Lemma attempt_obeys retries :
  obeys anyStep
    (fun o => match o with
              | Returned (continue_ retries') =>
                  retries < maxRetries - 1 /\ retries' = retries + 1
              | Returned (return_ r) => tool_use_id r = id toolUse
              | Thrown_ _ => True
              | Exited _ | Diverged => False
              end)
    (attempt toolUse retries).
Proof.
  unfold attempt.
  eapply obeys_tryCatch with (Q := fun o =>
    match o with
    | Returned (return_ r) => tool_use_id r = id toolUse
    | Thrown_ _ => True
    | _ => False
    end).
  - simpl. intros g. destruct (mcpClient g); simpl; [|done]. by intros [?|?].
  - intros e _. destruct (sessionExpired e && _) eqn:Hif; simpl; [|done].
    apply andb_prop in Hif as [_ Hlt%Nat.ltb_lt].
    eapply obeys_bind; [apply reconnectMCPSession_settles| |].
    + done.
    + carried.
  - by intros [[]| | |].
Qed.

End Invocation.

Opaque attempt.

Section Retry.
Context (w : World) (toolUse : ToolUseBlock).

Lemma retryLoop_obeys fuel :
  obeys anyStep
    (fun o => o <> Returned None /\
              (2 <= fuel -> settles o) /\
              (forall r, o = Returned (Some r) -> tool_use_id r = id toolUse))
    (retryLoop fuel toolUse 0).
Proof.
  destruct fuel as [|fuel]; simpl; [repeat split; [done|lia|done]|].
  eapply obeys_bind; [apply attempt_obeys| |].
  - intros [r|retries']; simpl.
    { intros Hid. repeat split; [done|]. by intros ? [= <-]. }
    intros [_ ->]. simpl.
    destruct fuel as [|fuel]; simpl; [repeat split; [done|lia|done]|].
    eapply obeys_bind; [apply attempt_obeys| |].
    + intros [r|retries']; simpl.
      { intros Hid. repeat split; [done|]. by intros ? [= <-]. }
      unfold maxRetries. lia.
    + intros [a|e|code|] Ho Hne; simpl in *; try done. by destruct (Hne a).
  - intros [a|e|code|] Ho Hne; simpl in *; try done. by destruct (Hne a).
Qed.

(** What an invocation can do: it returns a result that carries the
    identifier of its call, or it throws. *)
Definition answers (o : Outcome ToolResult) : Prop :=
  match o with
  | Returned r => tool_use_id r = id toolUse
  | Thrown_ _ => True
  | Exited _ | Diverged => False
  end.

Lemma callToolWithRetry_obeys : obeys anyStep answers (callToolWithRetry toolUse).
Proof.
  unfold callToolWithRetry.
  eapply obeys_bind; [apply (retryLoop_obeys (S maxRetries))| |].
  - intros [r|] (Hne & _ & Hid); simpl; [by apply Hid | done].
  - intros [a|e|code|] (_ & Hs & _) Hne; simpl in *; try done.
    + by destruct (Hne a).
    + apply Hs. unfold maxRetries. lia.
    + apply Hs. unfold maxRetries. lia.
Qed.

End Retry.

(** The client in use was built before now. *)
Definition wellFormed (g : Globals) : Prop :=
  forall c, mcpClient g = Some c -> c < constructed g.

Lemma wellFormed_start : wellFormed start.
Proof. by intros c. Qed.

Lemma wellFormed_reconnected w g t tr c tools :
  wellFormed (mem (reconnected w g t tr c tools)).
Proof. intros c' [= <-]. simpl. lia. Qed.

Section RetryClaims.
Context (w : World) (toolUse : ToolUseBlock).

Local Abbreviation theCall c := (callTool c (tool_name toolUse) (input toolUse)).

(** C2.  When does the failure of an attempt reach the caller with no
    reconnect and no retry after it?  (a) On the first attempt, exactly
    when the failure is not the session-expiry signal: the invocation
    then ends in the configuration reached by that one call.  (b) On the
    second attempt (after a session-expiry failure and the reconnect),
    always, and in particular for a second consecutive session expiry:
    the invocation ends right after the second call with that failure as
    a reported error.  In no case does the invocation hang or end without
    a result or an error. *)
Theorem failure_propagation g t tr cA e1 :
  mcpClient g = Some cA ->
  w _ t (theCall cA) = Err e1 ->
  (run w (callToolWithRetry toolUse) (mkConfig g t tr)
     = (Thrown_ e1, attempted toolUse g t tr cA (Err e1))
   <-> sessionExpired e1 = false) /\
  (sessionExpired e1 = true ->
   forall c2 cB e2,
     run w reconnectMCPSession (attempted toolUse g t tr cA (Err e1)) = (Returned tt, c2) ->
     mcpClient (mem c2) = Some cB ->
     w _ (clock c2) (theCall cB) = Err e2 ->
     run w (callToolWithRetry toolUse) (mkConfig g t tr)
       = (Thrown_ e2, attempted toolUse (mem c2) (clock c2) (trace c2) cB (Err e2))) /\
  settles (run w (callToolWithRetry toolUse) (mkConfig g t tr)).1.
Proof.
  intros HcA H1.
  assert (Hstart : run w (callToolWithRetry toolUse) (mkConfig g t tr) =
    if sessionExpired e1 then
      match run w reconnectMCPSession (attempted toolUse g t tr cA (Err e1)) with
      | (Returned _, c2) =>
          match run w (attempt toolUse 1) c2 with
          | (Returned (return_ r), c3) => (Returned r, c3)
          | (Returned (continue_ retries'), c3) =>
              run w (let* r := retryLoop 1 toolUse retries' in
                     match r with
                     | Some result => Ret result
                     | None => Throw (afterLoopError toolUse)
                     end) c3
          | (o, c3) => (carry o, c3)
          end
      | (o, c2) => (carry o, c2)
      end
    else (Thrown_ e1, attempted toolUse g t tr cA (Err e1))).
  { unfold callToolWithRetry. simpl.
    rewrite !run_bind, (run_attempt _ _ _ _ _ cA) by done.
    simpl. rewrite H1. destruct (sessionExpired e1); simpl; [|done].
    destruct (run w reconnectMCPSession _) as [[[]|e|code|] c2]; try done.
    simpl. rewrite !run_bind.
    destruct (run w (attempt toolUse 1) c2) as [[[r|retries']|e|code|] c3]; try done.
    by rewrite run_bind. }
  split; [|split].
  - rewrite Hstart. destruct (sessionExpired e1) eqn:Hexpired; [|done].
    split; [|done]. intros Hrun. exfalso.
    destruct (run w reconnectMCPSession _) as [o c2] eqn:Hreconnect.
    apply run_reconnectMCPSession_clock with (c := cA) in Hreconnect; [|done].
    assert (S (S t) <= clock (attempted toolUse g t tr cA (Err e1))); [|simpl in *; lia].
    destruct o as [[]|e|code|]; simpl in Hrun;
      try (injection Hrun as _ <-; done).
    destruct (run w (attempt toolUse 1) c2) as [o3 c3] eqn:Hsecond.
    apply run_clock in Hsecond.
    destruct o3 as [[r|retries']|e|code|]; simpl in Hrun;
      try (injection Hrun as _ <-; lia); try done.
    apply run_clock in Hrun. lia.
  - intros Hexpired c2 cB e2 Hreconnect HcB H2.
    rewrite Hstart, Hexpired, Hreconnect.
    destruct c2 as [g2 t2 tr2]. simpl in *.
    rewrite (run_attempt _ _ _ _ _ cB) by done. simpl. rewrite H2.
    by rewrite andb_false_r.
  - destruct (run w (callToolWithRetry toolUse) _) as [o c'] eqn:Hrun.
    destruct (obeys_run anyStep _ w _ _ _ _ (callToolWithRetry_obeys toolUse) Hrun) as [_ Ho].
    by destruct o.
Qed.

(** C8.  The [throw] after the retry loop is unreachable.  Whatever the
    world does and however many guard evaluations are allowed, the loop
    started with [retries = 0] is never left through its guard; with the
    two iterations that the ceiling allows it returns a result or throws.
    An iteration ends in one of three ways: it returns a tool result, it
    throws, or (only when [retries < maxRetries - 1], that is in the first
    iteration) it has reconnected and continues with the counter
    incremented; so the second iteration returns or throws. *)
Theorem after_loop_unreachable fuel c :
  (run w (retryLoop fuel toolUse 0) c).1 <> Returned None /\
  settles (run w (retryLoop (S (S fuel)) toolUse 0) c).1 /\
  (forall retries,
     match (run w (attempt toolUse retries) c).1 with
     | Returned (return_ _) | Thrown_ _ => True
     | Returned (continue_ retries') => retries = 0 /\ retries' = retries + 1
     | Exited _ | Diverged => False
     end) /\
  (forall c1, match (run w (attempt toolUse 1) c1).1 with
              | Returned (return_ _) | Thrown_ _ => True
              | _ => False
              end).
Proof.
  assert (Hiter : forall retries c0,
     match (run w (attempt toolUse retries) c0).1 with
     | Returned (return_ _) | Thrown_ _ => True
     | Returned (continue_ retries') => retries = 0 /\ retries' = retries + 1
     | Exited _ | Diverged => False
     end).
  { intros retries c0.
    destruct (run w (attempt toolUse retries) c0) as [o c'] eqn:Hrun.
    destruct (obeys_run anyStep _ w _ _ _ _ (attempt_obeys toolUse retries) Hrun) as [_ Ho].
    simpl. destruct o as [[r|retries']| | |]; try done.
    unfold maxRetries in Ho. lia. }
  split; [|split; [|split]].
  - destruct (run w (retryLoop fuel toolUse 0) c) as [o c'] eqn:Hrun.
    by destruct (obeys_run anyStep _ w _ _ _ _ (retryLoop_obeys toolUse fuel) Hrun) as [_ [? _]].
  - destruct (run w (retryLoop (S (S fuel)) toolUse 0) c) as [o c'] eqn:Hrun.
    destruct (obeys_run anyStep _ w _ _ _ _ (retryLoop_obeys toolUse (S (S fuel))) Hrun)
      as [_ (_ & Hs & _)].
    apply Hs. lia.
  - intros retries. apply Hiter.
  - intros c1. specialize (Hiter 1 c1).
    destruct (run w (attempt toolUse 1) c1).1 as [[r|retries']| | |]; try done. lia.
Qed.

End RetryClaims.

(** ** Connecting, and resuming after the OAuth callback *)

Definition rejectedUnauthorized {X} (answer : Result X) : bool :=
  match answer with
  | Ok _ => false
  | Err e => instanceofUnauthorizedError e
  end.

(** Modelled from the spec: [SimpleOAuthProvider] ([./oauth-provider.js]) is
    not among the sources, so the provider's pending-authorization marker is
    read off the history of the session.  The spec's authorization state is
    [awaiting-redirect] once "a pending external authorization request has
    been issued", which the SDK does when an operation is rejected with an
    [UnauthorizedError]; [clearPendingAuth] "clears the pending-authorization
    marker". *)
Definition authorizationStep (pending : bool) (ev : Event) : bool :=
  match ev with
  | Ev op answer =>
      match op in Ext X return X -> bool with
      | clearPendingAuth _ => fun _ => false
      | setTimeout _ => fun _ => pending
      | callTool _ _ _ => fun r => rejectedUnauthorized r || pending
      | close _ => fun r => rejectedUnauthorized r || pending
      | connect _ _ => fun r => rejectedUnauthorized r || pending
      | listTools _ => fun r => rejectedUnauthorized r || pending
      | listPrompts _ => fun r => rejectedUnauthorized r || pending
      | listResources _ => fun r => rejectedUnauthorized r || pending
      | finishAuth _ _ => fun r => rejectedUnauthorized r || pending
      | loadSavedTokens _ => fun r => rejectedUnauthorized r || pending
      | messages_create _ _ _ _ => fun _ => pending
      end answer
  end.

Definition pendingAuthorization (tr : list Event) : bool :=
  foldl authorizationStep false tr.

(** The session has been established at some point: a [connect] succeeded. *)
Definition connectSucceeded (ev : Event) : bool :=
  match ev with
  | Ev op answer =>
      match op in Ext X return X -> bool with
      | connect _ _ => fun r => match r with Ok _ => true | Err _ => false end
      | _ => fun _ => false
      end answer
  end.

(** A [connect] was asked for (whatever came of it). *)
Definition isConnect (ev : Event) : bool :=
  match ev with
  | Ev op answer =>
      match op in Ext X return bool with
      | connect _ _ => true
      | _ => false
      end
  end.


Section Connect.
Context (w : World).

(** C7.  A failure of the prompts listing or of the resources listing is not
    fatal, in a catalogue refresh ([initializeTools], run after every
    reconnect and after the OAuth callback) as in the initial connect
    ([initializeMCPClient]): provided the tools listing succeeds (and, for
    the connect, the token load and the handshake), the function returns
    normally whatever the two listings answer (the world [w] is free to
    reject either or both), the resources listing is still asked after the
    prompts listing, and the resulting state holds the converted tools and
    does not depend on the two answers. *)
Theorem best_effort_listings_non_fatal g t tr :
  (forall c tools,
     mcpClient g = Some c ->
     w _ t (listTools c) = Ok tools ->
     run w initializeTools (mkConfig g t tr) =
       (Returned tt,
        mkConfig (set_availableTools (map toAnthropicTool tools) g) (t + 3)
          (tr ++ [Ev (listTools c) (Ok tools);
                  Ev (listPrompts c) (w _ (t + 1) (listPrompts c));
                  Ev (listResources c) (w _ (t + 2) (listResources c))]))) /\
  (forall tools,
     let p := constructed g in
     let tp := S p in
     let c := S (S p) in
     w _ t (loadSavedTokens p) = Ok tt ->
     w _ (t + 1) (connect c tp) = Ok tt ->
     w _ (t + 2) (listTools c) = Ok tools ->
     run w initializeMCPClient (mkConfig g t tr) =
       (Returned tt,
        mkConfig (mkGlobals (Some c) (Some tp) (Some p) (map toAnthropicTool tools) (p + 3))
          (t + 5)
          (tr ++ [Ev (loadSavedTokens p) (Ok tt);
                  Ev (connect c tp) (Ok tt);
                  Ev (listTools c) (Ok tools);
                  Ev (listPrompts c) (w _ (t + 3) (listPrompts c));
                  Ev (listResources c) (w _ (t + 4) (listResources c))]))).
Proof.
  split.
  - intros c tools Hc Htools.
    rewrite (run_initializeTools w g t tr c Hc), Htools.
    unfold refreshEvents. by replace (t + 3) with (S (S (S t))) by lia;
      replace (t + 1) with (S t) by lia; replace (t + 2) with (S (S t)) by lia.
  - intros tools p tp c Hload Hconnect Htools. subst p tp c.
    replace (t + 1) with (S t) in * by lia. replace (t + 2) with (S (S t)) in * by lia.
    replace (t + 3) with (S (S (S t))) in * by lia.
    replace (t + 4) with (S (S (S (S t)))) in * by lia.
    replace (t + 5) with (S (S (S (S (S t))))) in * by lia.
    unfold initializeMCPClient. rewrite run_tryCatch. simpl.
    rewrite Hload. simpl. rewrite Hconnect. simpl.
    rewrite Htools. simpl.
    rewrite run_bind, (run_tryListPrompts w _ _ _ (S (S (constructed g)))) by done.
    rewrite (run_tryListResources w _ _ _ (S (S (constructed g)))) by done.
    f_equal. f_equal.
    + unfold set_availableTools, set_mcpClient, set_constructed; simpl. f_equal. lia.
    + by rewrite <- !app_assoc.
Qed.

End Connect.

(** ** The client object is never dropped *)

(** A client object, once built, stays: no function resets [mcpClient]. *)
Definition keepsClient (g g' : Globals) : Prop :=
  is_Some (mcpClient g) -> is_Some (mcpClient g').

#[global] Instance keepsClient_preorder : PreOrder keepsClient.
Proof.
  split.
  - intros g Hg. exact Hg.
  - intros g1 g2 g3 H12 H23 H1. exact (H23 (H12 H1)).
Qed.

(** The functions that touch the session variables. *)
Inductive SessionFunction : Type :=
| Startup
| InitializeMCPClient
| InitializeTools
| ReconnectAfterAuth (authCode : string)
| ReconnectMCPSession
| CallToolWithRetry (toolUse : ToolUseBlock).

Definition body_of (f : SessionFunction) : Prog Globals unit :=
  match f with
  | Startup => startup
  | InitializeMCPClient => initializeMCPClient
  | InitializeTools => initializeTools
  | ReconnectAfterAuth authCode => reconnectAfterAuth authCode
  | ReconnectMCPSession => reconnectMCPSession
  | CallToolWithRetry toolUse => callToolWithRetry toolUse;; Ret tt
  end.

Section NeverReset.

Transparent tryListPrompts tryListResources initializeTools reconnectMCPSession attempt.

Ltac walk :=
  repeat (simpl;
    match goal with
    | |- forall _, _ => intro
    | |- _ /\ _ => split
    | |- keepsClient _ _ => unfold keepsClient; simpl; eauto; done
    | |- context [match ?x with _ => _ end] => destruct x
    | |- True => exact I
    | |- anyOutcome _ => exact I
    end).

Lemma callToolWithRetry_keepsClient toolUse :
  obeys keepsClient anyOutcome (callToolWithRetry toolUse).
Proof.
  unfold callToolWithRetry, initializeTools, reconnectMCPSession, attempt,
    tryListPrompts, tryListResources, theClient, theProvider, new, await, call, assign;
    walk.
Qed.

Lemma body_keepsClient f : obeys keepsClient anyOutcome (body_of f).
Proof.
  destruct f; unfold body_of, startup, initializeMCPClient, reconnectAfterAuth,
    callToolWithRetry, initializeTools, reconnectMCPSession, attempt,
    tryListPrompts, tryListResources, theClient, theProvider, new, await, call, assign;
    walk.
Qed.

End NeverReset.



(** ** [Promise.all], whatever the completion order *)

Section PromiseAll.
Context {St B : Type} (R : St -> St -> Prop).

(** The outcome of [Promise.all] over tasks with the postconditions [Qs]:
    the values come in the order of the tasks, each satisfying the
    postcondition of its own task; a rejection is the rejection of one of
    the tasks. *)
Definition allOf (Qs : list (Outcome B -> Prop)) (o : Outcome (list B)) : Prop :=
  match o with
  | Returned values => Forall2 (fun Q v => Q (Returned v)) Qs values
  | Thrown_ e => Exists (fun Q => Q (Thrown_ e)) Qs
  | Exited code => Exists (fun Q => Q (Exited code)) Qs
  | Diverged => True
  end.

Lemma allFulfilled_Forall2 (Qs : list (Outcome B -> Prop)) (ts : list (Task St B)) values :
  Forall2 (taskObeys R) Qs ts ->
  allFulfilled ts = Some values ->
  Forall2 (fun Q v => Q (Returned v)) Qs values.
Proof.
  intros H. revert values. induction H as [|Q t Qs ts Ht _ IH]; intros values; simpl.
  - by intros [= <-].
  - destruct t as [b|e|X op k]; try done.
    destruct (allFulfilled ts) as [vs|]; simpl; [|done].
    intros [= <-]. constructor; auto.
Qed.

Lemma firstRejected_Exists (Qs : list (Outcome B -> Prop)) (ts : list (Task St B)) e :
  Forall2 (taskObeys R) Qs ts ->
  firstRejected ts = Some e ->
  Exists (fun Q => Q (Thrown_ e)) Qs.
Proof.
  induction 1 as [|Q t Qs ts Ht _ IH]; simpl; [done|].
  destruct t as [b|e'|X op k].
  - intros He. apply Exists_cons_tl. auto.
  - intros [= ->]. by apply Exists_cons_hd.
  - intros He. apply Exists_cons_tl. auto.
Qed.

Lemma obeys_advanceAll (Qs : list (Outcome B -> Prop)) (ps : list (Prog St B)) :
  Forall2 (obeys R) Qs ps ->
  obeys R (fun o => match o with
                    | Returned ts => Forall2 (taskObeys R) Qs ts
                    | Thrown_ _ => False
                    | Exited code => Exists (fun Q => Q (Exited code)) Qs
                    | Diverged => True
                    end) (advanceAll ps).
Proof.
  induction 1 as [|Q p Qs ps Hp _ IH]; simpl; [constructor|].
  eapply obeys_bind; [apply obeys_advance, Hp| |].
  - intros t Ht. eapply obeys_bind; [apply IH| |].
    + intros ts Hts. simpl. by constructor.
    + intros [a|e|code|] Ho Hne; simpl in *; try done; try (by destruct (Hne a)).
      by apply Exists_cons_tl.
  - intros [a|e|code|] Ho Hne; simpl in *; try done; try (by destruct (Hne a)).
    by apply Exists_cons_hd.
Qed.

Lemma obeys_drive (Qs : list (Outcome B -> Prop)) sched (ts : list (Task St B)) :
  Forall2 (taskObeys R) Qs ts ->
  obeys R (allOf Qs) (drive sched ts).
Proof.
  revert ts. induction sched as [|i sched IH]; intros ts Hts; simpl.
  - destruct (firstRejected ts) as [e|] eqn:Hrejected; simpl.
    { eapply firstRejected_Exists; eauto. }
    destruct (allFulfilled ts) as [values|] eqn:Hfulfilled; simpl; [|done].
    eapply allFulfilled_Forall2; eauto.
  - destruct (firstRejected ts) as [e|] eqn:Hrejected; simpl.
    { eapply firstRejected_Exists; eauto. }
    destruct (allFulfilled ts) as [values|] eqn:Hfulfilled; simpl.
    { eapply allFulfilled_Forall2; eauto. }
    destruct (ts !! i) as [[b|e|X op k]|] eqn:Hi; auto.
    simpl. intros x.
    destruct (Forall2_lookup_r _ _ _ _ _ Hts Hi) as (Q & HQ & Hk). simpl in Hk.
    eapply obeys_bind; [apply obeys_advance, Hk| |].
    + intros t Ht. simpl in Ht. apply IH.
      rewrite <- (list_insert_id Qs i Q HQ). by apply Forall2_insert.
    + intros [a|e|code|] Ho Hne; simpl in *; try done; try (by destruct (Hne a)).
      apply Exists_exists. exists Q. split; [|done].
      by eapply list_elem_of_lookup_2.
Qed.

Lemma obeys_promiseAll (Qs : list (Outcome B -> Prop)) (ps : list (Prog St B)) sched :
  Forall2 (obeys R) Qs ps ->
  obeys R (allOf Qs) (promiseAll ps sched).
Proof.
  intros Hps. unfold promiseAll.
  eapply obeys_bind; [by apply obeys_advanceAll| |].
  - intros ts Hts. by apply obeys_drive.
  - intros [a|e|code|] Ho Hne; simpl in *; try done; try (by destruct (Hne a)).
Qed.

End PromiseAll.

(** A schedule that is too short leaves the promise pending; one that
    settles it does so as well when more completions follow. *)
Lemma drive_more_schedule {St B} w sched extra (ts : list (Task St B)) c o c' :
  run w (drive sched ts) c = (o, c') ->
  o <> Diverged ->
  run w (drive (sched ++ extra) ts) c = (o, c').
Proof.
  revert ts c. induction sched as [|i sched IH]; intros ts c; simpl.
  - destruct extra as [|j extra]; simpl; [done|].
    destruct (firstRejected ts); [done|]. destruct (allFulfilled ts); [done|].
    simpl. by intros [= <- <-].
  - destruct (firstRejected ts); [done|]. destruct (allFulfilled ts); [done|].
    destruct (ts !! i) as [[b|e|X op k]|]; auto.
    simpl. rewrite !run_bind.
    match goal with
    | |- context [run w (advance ?p) ?c0] => destruct (run w (advance p) c0) as [[t|e|code|] c1]
    end; try done.
    apply IH.
Qed.

Lemma invocations_obey (toolUseBlocks : list ToolUseBlock) :
  Forall2 (obeys anyStep) (map answers toolUseBlocks) (map callToolWithRetry toolUseBlocks).
Proof.
  induction toolUseBlocks as [|toolUse rest IH]; simpl; constructor; [|done].
  apply callToolWithRetry_obeys.
Qed.

Lemma answers_in_order (toolUseBlocks : list ToolUseBlock) (results : list ToolResult) :
  Forall2 (fun Q v => Q (Returned v)) (map answers toolUseBlocks) results ->
  map tool_use_id results = map id toolUseBlocks.
Proof.
  revert results. induction toolUseBlocks as [|toolUse rest IH]; intros results; simpl.
  - by intros ->%Forall2_nil_inv_l.
  - intros (r & results' & Hr & Hrest & ->)%Forall2_cons_inv_l. simpl in *.
    f_equal; auto.
Qed.

(** ** A round of one invocation *)



Section OneTask.
Context {St B : Type} (w : World).



End OneTask.

Section LoneInvocation.
Context (w : World) (toolUse : ToolUseBlock).

Local Abbreviation theCall c := (callTool c (tool_name toolUse) (input toolUse)).


End LoneInvocation.

(** ** The orchestrator *)

Lemma obeys_any {St A} (p : Prog St A) : obeys anyStep anyOutcome p.
Proof. induction p as [| | | |k IH|g k IH|X op k IH]; simpl; auto; by split. Qed.

(** The loop is left on a response that asks for no tool. *)
Definition final (response : ModelResponse) : Prop :=
  stop_reason response <> tool_use \/ filterToolUse (response_content response) = [].

Definition returnsFinal (o : Outcome ModelResponse) : Prop :=
  match o with
  | Returned response => final response
  | Exited _ => False
  | _ => True
  end.

Definition neverExits {A} (o : Outcome A) : Prop :=
  match o with Exited _ => False | _ => True end.

(** One round of tool invocations, as seen by a relation that accepts every
    update of the session variables. *)
Lemma toolBatch_obeys (R : Mem -> Mem -> Prop) toolUseBlocks sched :
  (forall g m, R m (set_session g m)) ->
  obeys R neverExits (inSession (promiseAll (map callToolWithRetry toolUseBlocks) sched)).
Proof.
  intros R_session. apply obeys_zoom; [apply R_session|].
  eapply obeys_weaken; [|apply obeys_promiseAll, invocations_obey].
  intros [vs|e|code|]; simpl; try done.
  intros (Q & (toolUse & -> & _)%list_elem_of_fmap & HQ)%Exists_exists. done.
Qed.

Section Loop.
Context (R : Mem -> Mem -> Prop) (messages : loc).
Hypothesis R_batch :
  forall toolUseBlocks sched,
    obeys R neverExits (inSession (promiseAll (map callToolWithRetry toolUseBlocks) sched)).
Hypothesis R_push :
  forall v m, R m (set_arrays (alter (fun a => a ++ [v]) messages (arrays m)) m).

Lemma createMessage_obeys system : obeys R neverExits (createMessage system messages).
Proof. unfold createMessage, readArray. simpl. intros m m'. by intros [?|?]. Qed.

Opaque createMessage.

Lemma toolUseLoop_obeys fuel schedule round response :
  obeys R returnsFinal (toolUseLoop fuel schedule round messages response).
Proof.
  revert round response. induction fuel as [|fuel IH]; intros round response; simpl; [done|].
  destruct (stop_reason response) eqn:Hstop; simpl; try (left; congruence).
  destruct (length _ =? 0)%nat eqn:Hlen; simpl.
  - right. apply Nat.eqb_eq in Hlen. by destruct (filterToolUse _).
  - split; [apply R_push|].
    eapply obeys_bind; [apply R_batch| |].
    + intros toolResults _. simpl. split; [apply R_push|].
      eapply obeys_bind; [apply createMessage_obeys| |].
      * intros response' _. apply IH.
      * intros [a|e|code|] Ho Hne; simpl in *; try done; try (by destruct (Hne a)).
    + intros [a|e|code|] Ho Hne; simpl in *; try done; try (by destruct (Hne a)).
Qed.

End Loop.

Opaque createMessage.

(** *** Fuel

    The fuel of the tool loop only bounds how many rounds the model is
    followed for: a run that ends within its fuel ends in the same way with
    more. *)
Lemma toolUseLoop_more_fuel w fuel schedule round messages response c o c' :
  run w (toolUseLoop fuel schedule round messages response) c = (o, c') ->
  o <> Diverged ->
  run w (toolUseLoop (S fuel) schedule round messages response) c = (o, c').
Proof.
  revert round response c. induction fuel as [|fuel IH]; intros round response c.
  { simpl. by intros [= <- <-]. }
  intros Hrun Ho. revert Hrun.
  change (toolUseLoop (S (S fuel)) schedule round messages response) with
    (match stop_reason response with
     | tool_use =>
         let toolUseBlocks := filterToolUse (response_content response) in
         if (length toolUseBlocks =? 0)%nat then Ret response
         else
           push messages {| role := assistant; body := blocks (response_content response) |};;
           let* toolResults :=
             inSession (promiseAll (map callToolWithRetry toolUseBlocks) (schedule round)) in
           push messages {| role := user; body := tool_results toolResults |};;
           let* response' := createMessage false messages in
           toolUseLoop (S fuel) schedule (S round) messages response'
     | _ => Ret response
     end).
  change (toolUseLoop (S fuel) schedule round messages response) with
    (match stop_reason response with
     | tool_use =>
         let toolUseBlocks := filterToolUse (response_content response) in
         if (length toolUseBlocks =? 0)%nat then Ret response
         else
           push messages {| role := assistant; body := blocks (response_content response) |};;
           let* toolResults :=
             inSession (promiseAll (map callToolWithRetry toolUseBlocks) (schedule round)) in
           push messages {| role := user; body := tool_results toolResults |};;
           let* response' := createMessage false messages in
           toolUseLoop fuel schedule (S round) messages response'
     | _ => Ret response
     end).
  destruct (stop_reason response); try done.
  simpl. destruct (length _ =? 0)%nat; [done|].
  simpl. rewrite !run_bind.
  match goal with
  | |- context [run w (inSession ?p) ?c0] => destruct (run w (inSession p) c0) as [[vs|e|code|] c1]
  end; try done.
  simpl. rewrite !run_bind.
  match goal with
  | |- context [run w (createMessage ?b ?l) ?c0] =>
      destruct (run w (createMessage b l) c0) as [[response'|e|code|] c2]
  end; try done.
  intros Hrun. by apply IH.
Qed.

(** *** Streaming the final answer *)

(** Each word but the last one followed by a space. *)
Fixpoint resuffixed (words : list string) : list string :=
  match words with
  | [] => []
  | [word] => [word]
  | word :: rest => (word +:+ " ") :: resuffixed rest
  end.

(** Concatenation of the chunks. *)
Definition joined (parts : list string) : string := foldr String.append "" parts.

Lemma split_space_nonempty s : split_space s <> [].
Proof.
  destruct s as [|c s]; simpl; [done|].
  destruct (Ascii.eqb c Ascii.Space); [done|]. by destruct (split_space s).
Qed.

Lemma wordAt_map_seq (before words : list string) :
  map (wordAt (before ++ words)) (seq (length before) (length words)) = resuffixed words.
Proof.
  revert before. induction words as [|word rest IH]; intros before; simpl; [done|].
  assert (Hrest : map (wordAt (before ++ word :: rest)) (seq (S (length before)) (length rest))
                  = resuffixed rest).
  { specialize (IH (before ++ [word])). rewrite <- app_assoc in IH. simpl in IH.
    rewrite length_app in IH. simpl in IH.
    by replace (length before + 1) with (S (length before)) in IH by lia. }
  rewrite Hrest. unfold wordAt at 1.
  rewrite length_app. simpl.
  rewrite lookup_app_r by lia. rewrite Nat.sub_diag. simpl.
  destruct rest as [|word' rest]; simpl.
  - replace (length before + 1 - 1) with (length before) by lia.
    by rewrite Nat.eqb_refl.
  - destruct (Nat.eqb_spec (length before) (length before + S (S (length rest)) - 1)); [lia|done].
Qed.

Lemma chunks_resuffixed fullText : chunks fullText = resuffixed (split_space fullText).
Proof. unfold chunks. apply (wordAt_map_seq []). Qed.

Lemma joined_resuffixed_cons c word rest :
  joined (resuffixed (String c word :: rest)) = String c (joined (resuffixed (word :: rest))).
Proof. by destruct rest. Qed.

Lemma joined_split_space s : joined (resuffixed (split_space s)) = s.
Proof.
  induction s as [|c s IH]; simpl; [done|].
  destruct (Ascii.eqb_spec c Ascii.Space) as [->|Hc].
  - destruct (split_space s) as [|word rest] eqn:Hsplit; [by destruct (split_space_nonempty s)|].
    change (joined (resuffixed ("" :: word :: rest)))
      with (String Ascii.Space (joined (resuffixed (word :: rest)))).
    by rewrite IH.
  - destruct (split_space s) as [|word rest] eqn:Hsplit; [by destruct (split_space_nonempty s)|].
    by rewrite joined_resuffixed_cons, IH.
Qed.

(** What [streamFinal] sends for a response. *)
Definition streamed (response : ModelResponse) : list string :=
  match findText (response_content response) with
  | Some fullText => chunks fullText
  | None => []
  end ++ [END].

Section Streaming.
Context (w : World) (ws : WebSocket).

Lemma run_forEach_send (f : nat -> string) xs m t tr :
  exists tr',
    run w (forEach xs (fun i => send ws (f i);; call (setTimeout 10))) (mkConfig m t tr) =
      (Returned tt,
       mkConfig (set_sent (sent m ++ map (fun i => (ws, f i)) xs) m) (t + length xs) tr').
Proof.
  revert m t tr. induction xs as [|x xs IH]; intros m t tr; simpl.
  - exists tr. rewrite app_nil_r, Nat.add_0_r. by destruct m.
  - edestruct IH as [tr' ->]. exists tr'. f_equal. f_equal; [|lia].
    unfold set_sent. simpl. by rewrite <- app_assoc.
Qed.

Lemma run_streamFinal response m t tr :
  exists t' tr',
    run w (streamFinal ws response) (mkConfig m t tr) =
      (Returned tt,
       mkConfig (set_sent (sent m ++ map (pair ws) (streamed response)) m) t' tr').
Proof.
  unfold streamFinal, streamed. rewrite run_bind.
  destruct (findText (response_content response)) as [fullText|].
  - edestruct run_forEach_send as [tr' ->]. simpl. do 2 eexists. f_equal. f_equal.
    unfold set_sent, chunks. simpl. f_equal.
    by rewrite <- app_assoc, map_app, map_map.
  - simpl. do 2 eexists. done.
Qed.

End Streaming.

Opaque streamFinal.

(** *** What a turn leaves untouched *)

(** Nothing is sent. *)
Definition silent (m m' : Mem) : Prop := sent m' = sent m.

(** The per-socket map is as it was, and so is every array but [l]. *)
Definition frameExcept (l : loc) (m m' : Mem) : Prop :=
  conversationHistories m' = conversationHistories m /\
  forall l', l' <> l -> arrays m' !! l' = arrays m !! l'.

#[global] Instance silent_preorder : PreOrder silent.
Proof.
  split.
  - by intros m.
  - intros m1 m2 m3 H12 H23. unfold silent in *. congruence.
Qed.

#[global] Instance frameExcept_preorder l : PreOrder (frameExcept l).
Proof.
  split.
  - by intros m.
  - intros m1 m2 m3 [Hh12 Ha12] [Hh23 Ha23]. split; [congruence|].
    intros l' Hl'. by rewrite Ha23, Ha12.
Qed.

Lemma frameExcept_push l v m :
  frameExcept l m (set_arrays (alter (fun a => a ++ [v]) l (arrays m)) m).
Proof. split; [done|]. intros l' Hl'. simpl. by rewrite lookup_alter_ne. Qed.

Lemma frameExcept_send l v m : frameExcept l m (set_sent v m).
Proof. by split. Qed.

Section Sending.
Context (R : Mem -> Mem -> Prop).
Hypothesis R_send : forall v m, R m (set_sent v m).

Transparent streamFinal.

Lemma streamFinal_obeys ws response :
  obeys R (fun o => o = Returned tt) (streamFinal ws response).
Proof.
  unfold streamFinal.
  eapply obeys_bind with (Q := fun o => o = Returned tt).
  - destruct (findText _); [|done]. apply obeys_forEach. intros i. simpl.
    split; [intros m; apply R_send | by intros []].
  - intros _ _. simpl. split; [intros m; apply R_send | done].
  - intros [[]|e|code|] Ho Hne; try done. by destruct (Hne tt).
Qed.

Lemma catchBlock_obeys ws e :
  obeys R (fun o => o = Returned tt) (catchBlock ws e).
Proof.
  unfold catchBlock. simpl.
  split; [intros m; apply R_send|].
  split; [intros m; apply R_send|done].
Qed.

End Sending.

Section Turn.
Context (w : World) (fuel : nat) (schedule : nat -> list nat).
Context (userMessage : string) (conversationHistory : loc) (ws : WebSocket).

Lemma converse_silent :
  obeys silent returnsFinal (converse fuel schedule userMessage conversationHistory).
Proof.
  unfold converse, readArray, newArray. simpl. intros m m'. split; [done|].
  eapply obeys_bind; [by apply (createMessage_obeys silent)| |].
  - intros response _. apply toolUseLoop_obeys; [|done].
    intros toolUseBlocks sched. by apply toolBatch_obeys.
  - intros [a|e|code|] Ho Hne; simpl in *; try done; try (by destruct (Hne a)).
Qed.

Lemma conversation_frame l :
  obeys (frameExcept l) (fun o => o = Returned tt \/ o = Diverged)
    (tryCatch
       (let* response :=
          (let* response := createMessage true l in
           toolUseLoop fuel schedule 0 l response) in
        streamFinal ws response)
       (catchBlock ws)).
Proof.
  eapply obeys_tryCatch with (Q := fun o => match o with Exited _ => False | _ => True end).
  - eapply obeys_bind with (Q := returnsFinal).
    + eapply obeys_bind; [apply createMessage_obeys| |].
      * intros response _.
        apply toolUseLoop_obeys; [|apply frameExcept_push].
        intros toolUseBlocks sched. apply toolBatch_obeys. intros g m. by split.
      * intros [a|e|code|] Ho Hne; simpl in *; try done; try (by destruct (Hne a)).
    + intros response _.
      eapply obeys_weaken; [|apply streamFinal_obeys, frameExcept_send]. by intros o ->.
    + intros [a|e|code|] Ho Hne; simpl in *; try done; try (by destruct (Hne a)).
  - intros e _.
    eapply obeys_weaken; [|apply catchBlock_obeys, frameExcept_send]. intros o ->. by left.
  - intros [a|e|code|] Ho Hne; simpl in *; try done.
    + left. by destruct a.
    + by destruct (Hne e).
    + by right.
Qed.

(** A turn leaves the per-socket map and every array that existed before
    it as they were (it works on an array of its own), and ends by
    returning, unless the model asks for tools beyond the fuel. *)
Lemma turn_frame c :
  let r := run w (processMessageWithClaude fuel schedule userMessage conversationHistory ws) c in
  (r.1 = Returned tt \/ r.1 = Diverged) /\
  conversationHistories (mem r.2) = conversationHistories (mem c) /\
  forall l, l ∈ dom (arrays (mem c)) -> arrays (mem r.2) !! l = arrays (mem c) !! l.
Proof.
  destruct c as [m t tr].
  unfold processMessageWithClaude, tryBlock, converse, readArray, newArray. simpl.
  set (l := fresh (dom (arrays m))).
  match goal with
  | |- context [run w ?p ?c] => destruct (run w p c) as [o c'] eqn:Hrun
  end.
  destruct (obeys_run (frameExcept l) _ w _ _ _ _ (conversation_frame l) Hrun)
    as [[Hhistories Harrays] Ho].
  simpl in *. split; [done|]. split; [done|].
  intros l' Hl'. rewrite Harrays.
  - apply lookup_insert_ne. intros <-. by apply (is_fresh (dom (arrays m))).
  - intros ->. by apply (is_fresh (dom (arrays m))).
Qed.

End Turn.

(** *** The client object across a turn *)

Definition sessionKeepsClient (m m' : Mem) : Prop :=
  keepsClient (session m) (session m').

#[global] Instance sessionKeepsClient_preorder : PreOrder sessionKeepsClient.
Proof.
  split.
  - intros m. unfold sessionKeepsClient. reflexivity.
  - intros m1 m2 m3. unfold sessionKeepsClient. apply transitivity.
Qed.

Lemma toolBatch_keepsClient toolUseBlocks sched :
  obeys sessionKeepsClient neverExits
    (inSession (promiseAll (map callToolWithRetry toolUseBlocks) sched)).
Proof.
  eapply obeys_zoom_rel with (R' := keepsClient); [by intros m g'|].
  eapply obeys_weaken;
    [|apply obeys_promiseAll with
        (Qs := map (fun toolUse o => anyOutcome o /\ answers toolUse o) toolUseBlocks)].
  - intros [vs|e|code|]; simpl; try done.
    intros (Q & (toolUse & -> & _)%list_elem_of_fmap & HQ)%Exists_exists. by destruct HQ.
  - induction toolUseBlocks as [|toolUse rest IH]; simpl; constructor; [|done].
    apply obeys_both; [apply callToolWithRetry_keepsClient|apply callToolWithRetry_obeys].
Qed.

Ltac same_session :=
  intros; unfold sessionKeepsClient, keepsClient; simpl; done.

Lemma onMessage_keepsClient fuel schedule ws data :
  obeys sessionKeepsClient anyOutcome (onMessage fuel schedule ws data).
Proof.
  assert (Hturn : forall userMessage conversationHistory,
    obeys sessionKeepsClient anyOutcome
      (processMessageWithClaude fuel schedule userMessage conversationHistory ws)).
  { intros userMessage conversationHistory.
    unfold processMessageWithClaude, tryBlock, converse, readArray, newArray.
    eapply obeys_tryCatch with (Q := anyOutcome); [| |done].
    - eapply obeys_bind with (Q := anyOutcome); [| |done].
      + simpl. intros m m'. split; [same_session|].
        eapply obeys_bind with (Q := anyOutcome); [| |done].
        * eapply obeys_weaken; [|apply createMessage_obeys]. done.
        * intros response _. eapply obeys_weaken; [|apply toolUseLoop_obeys]; [done| |].
          -- apply toolBatch_keepsClient.
          -- same_session.
      + intros response _. eapply obeys_weaken; [|apply streamFinal_obeys]; [done|].
        same_session.
    - intros e _. eapply obeys_weaken; [|apply catchBlock_obeys]; [done|]. same_session. }
  unfold onMessage, push, readArray, newArray, assign. simpl. intros m.
  destruct (conversationHistories m !! ws); simpl.
  - split; [same_session|]. intros m1 m2. split; [same_session|]. apply Hturn.
  - intros m1. split; [same_session|]. split; [same_session|].
    intros m2 m3. split; [same_session|]. apply Hturn.
Qed.

Opaque processMessageWithClaude.

(** *** The text of a response *)

(** In the words of the spec, "the textual portion" of a response: the
    texts of its text blocks, one after the other. *)
Definition textPortion (response : ModelResponse) : string :=
  joined (omap asText (response_content response)).

(** A block of another type than ["text"]. *)
Definition notText (block : ContentBlock) : Prop := asText block = None.

Lemma omap_notText (bs : list ContentBlock) : Forall notText bs -> omap asText bs = [].
Proof. induction 1 as [|b bs Hb _ IH]; simpl; [done|]. by rewrite Hb. Qed.

Lemma findText_first before fullText after :
  Forall notText before ->
  findText (before ++ text_block fullText :: after) = Some fullText.
Proof. intros Hbefore. unfold findText. by rewrite omap_app, omap_notText. Qed.

Lemma joined_singleton s : joined [s] = s.
Proof.
  unfold joined. simpl. induction s as [|a s IH]; [done|].
  change (String a (s +:+ "") = String a s). by rewrite IH.
Qed.

Section TurnClaims.
Context (w : World) (fuel : nat) (schedule : nat -> list nat).
Context (userMessage : string) (conversationHistory : loc) (ws : WebSocket).

Local Abbreviation theTurn :=
  (processMessageWithClaude fuel schedule userMessage conversationHistory ws).

Lemma run_processMessageWithClaude c :
  run w theTurn c =
    match run w (converse fuel schedule userMessage conversationHistory) c with
    | (Returned response, c1) => run w (streamFinal ws response) c1
    | (Thrown_ e, c1) => run w (catchBlock ws e) c1
    | (o, c1) => (carry o, c1)
    end.
Proof.
  Transparent processMessageWithClaude.
  unfold processMessageWithClaude, tryBlock. rewrite run_tryCatch, run_bind.
  destruct (run w (converse _ _ _ _) c) as [[response|e|code|] c1]; try done.
  destruct c1 as [m1 t1 tr1].
  destruct (run_streamFinal w ws response m1 t1 tr1) as (t' & tr' & ->). done.
  Opaque processMessageWithClaude.
Qed.

(** C5, amended.  The model's final response (the one on which the tool
    loop is left: it asks for no tool) has [fullText] as the text of its
    first text block: what the turn sends on the socket is the chunks of
    [fullText], then the marker ["[END]"], once, and nothing else.  The
    chunks are the pieces of [fullText] split on single spaces, each but
    the last followed by a space again, and their concatenation is
    [fullText].  When no text block follows the first one, [fullText] is
    the whole text portion of the response. *)
Theorem first_text_block_streamed c response c1 before fullText after :
  run w (converse fuel schedule userMessage conversationHistory) c = (Returned response, c1) ->
  response_content response = before ++ text_block fullText :: after ->
  Forall notText before ->
  let r := run w theTurn c in
  final response /\
  r.1 = Returned tt /\
  sent (mem r.2) = sent (mem c) ++ map (pair ws) (chunks fullText ++ ["[END]"]) /\
  chunks fullText = resuffixed (split_space fullText) /\
  joined (chunks fullText) = fullText /\
  (Forall notText after -> textPortion response = fullText).
Proof.
  intros Hconverse Hcontent Hbefore r. subst r.
  destruct (obeys_run silent _ w _ _ _ _
              (converse_silent fuel schedule userMessage conversationHistory) Hconverse)
    as [Hsilent Hfinal].
  rewrite run_processMessageWithClaude, Hconverse.
  destruct c1 as [m1 t1 tr1].
  destruct (run_streamFinal w ws response m1 t1 tr1) as (t' & tr' & ->).
  simpl in *. unfold streamed. rewrite Hcontent, findText_first, Hsilent by done.
  repeat split; try done.
  - apply chunks_resuffixed.
  - rewrite chunks_resuffixed. apply joined_split_space.
  - intros Hafter. unfold textPortion. rewrite Hcontent, omap_app, omap_notText by done.
    simpl. rewrite omap_notText by done. apply joined_singleton.
Qed.

(** C6.  An error thrown anywhere in the [try] block (by a model request or
    by a tool invocation; nothing throws once streaming has begun) is
    answered by exactly one error chunk followed by exactly one ["[END]"],
    nothing having been sent before them in the turn; the per-socket
    histories and every array that existed before the turn are as they
    were, so nothing of the failed turn is kept.  And a turn that ends, in
    whichever way, has ["[END]"] as the last thing sent. *)
Theorem error_reported_then_end_marker c e c1 :
  run w (tryBlock fuel schedule userMessage conversationHistory ws) c = (Thrown_ e, c1) ->
  let r := run w theTurn c in
  r.1 = Returned tt /\
  sent (mem r.2) =
    sent (mem c) ++ [(ws, "Error: " +:+ reportedMessage e); (ws, "[END]")] /\
  conversationHistories (mem r.2) = conversationHistories (mem c) /\
  (forall l, l ∈ dom (arrays (mem c)) -> arrays (mem r.2) !! l = arrays (mem c) !! l) /\
  (forall c0,
     let r0 := run w theTurn c0 in
     (r0.1 = Returned tt \/ r0.1 = Diverged) /\
     (r0.1 = Returned tt -> last (sent (mem r0.2)) = Some (ws, "[END]"))).
Proof.
  intros Htry r. subst r.
  destruct (turn_frame w fuel schedule userMessage conversationHistory ws c)
    as (_ & Hhistories & Harrays).
  assert (Hlast : forall c0,
     let r0 := run w theTurn c0 in
     (r0.1 = Returned tt \/ r0.1 = Diverged) /\
     (r0.1 = Returned tt -> last (sent (mem r0.2)) = Some (ws, "[END]"))).
  { intros c0. simpl.
    split; [apply (turn_frame w fuel schedule userMessage conversationHistory ws c0)|].
    rewrite run_processMessageWithClaude.
    destruct (run w (converse _ _ _ _) c0) as [[response|e0|code|] [m1 t1 tr1]]; try done.
    - destruct (run_streamFinal w ws response m1 t1 tr1) as (t' & tr' & ->). simpl.
      intros _. unfold streamed. rewrite map_app. simpl. by rewrite app_assoc, last_snoc.
    - intros _. unfold catchBlock. simpl.
      by rewrite last_snoc. }
  assert (Hcaught : exists m1 t1 tr1,
            run w (converse fuel schedule userMessage conversationHistory) c
              = (Thrown_ e, mkConfig m1 t1 tr1) /\ sent m1 = sent (mem c)).
  { revert Htry. unfold tryBlock. rewrite run_bind.
    destruct (run w (converse _ _ _ _) c) as [[response|e0|code|] [m1 t1 tr1]] eqn:Hconverse;
      try done.
    - by destruct (run_streamFinal w ws response m1 t1 tr1) as (t' & tr' & ->).
    - intros [= -> <-]. exists m1, t1, tr1. split; [done|].
      by destruct (obeys_run silent _ w _ _ _ _
                     (converse_silent fuel schedule userMessage conversationHistory) Hconverse). }
  destruct Hcaught as (m1 & t1 & tr1 & Hconverse & Hsilent).
  split; [|split; [|split; [|split]]]; try done.
  - by rewrite run_processMessageWithClaude, Hconverse.
  - rewrite run_processMessageWithClaude, Hconverse. unfold catchBlock. simpl.
    by rewrite Hsilent, <- app_assoc.
Qed.

End TurnClaims.

(** C9.  A turn on socket [ws], whose stored history is the array [l] with
    contents [h]: when the handler is done (the turn has succeeded or
    failed) the map still gives [l] for [ws], and [l] holds [h] followed by
    the one new user message and nothing of the assistant; the other arrays
    are untouched.  [processMessageWithClaude] itself changes neither the map
    nor any array that existed when it was called, the history passed to it
    included: it works on a list of its own. *)
Theorem stored_history_gains_only_user_message w fuel schedule ws data c l h :
  conversationHistories (mem c) !! ws = Some l ->
  arrays (mem c) !! l = Some h ->
  let r := run w (onMessage fuel schedule ws data) c in
  conversationHistories (mem r.2) = conversationHistories (mem c) /\
  arrays (mem r.2) !! l = Some (h ++ [ {| role := user; body := plain data |} ]) /\
  (forall l', l' ∈ dom (arrays (mem c)) -> l' <> l ->
     arrays (mem r.2) !! l' = arrays (mem c) !! l') /\
  (forall userMessage conversationHistory c0,
     let r0 := run w (processMessageWithClaude fuel schedule userMessage conversationHistory ws) c0 in
     conversationHistories (mem r0.2) = conversationHistories (mem c0) /\
     forall l', l' ∈ dom (arrays (mem c0)) -> arrays (mem r0.2) !! l' = arrays (mem c0) !! l').
Proof.
  intros Hws Hl r. subst r. destruct c as [m t tr]. simpl in *.
  unfold onMessage, push, readArray, newArray, assign. simpl. rewrite Hws. simpl.
  match goal with
  | |- context [run w (processMessageWithClaude ?f ?s ?u ?a ?x) ?c] =>
      destruct (turn_frame w f s u a x c) as (_ & Hhistories & Harrays)
  end.
  simpl in *. rewrite !dom_alter_L in *.
  assert (Hold : forall l', l' ∈ dom (arrays m) -> l' <> fresh (dom (arrays m))).
  { intros l' Hl' Heq. subst l'. by apply (is_fresh (dom (arrays m))). }
  assert (Hdom : l ∈ dom (arrays m)) by (apply elem_of_dom; eauto).
  repeat split.
  - done.
  - rewrite Harrays.
    + rewrite lookup_insert_ne by (intros Heq; by eapply (Hold l)).
      by rewrite lookup_alter_eq, Hl.
    + rewrite dom_insert_L, dom_alter_L. set_solver.
  - intros l' Hl' Hne. rewrite Harrays.
    + rewrite lookup_insert_ne by (intros Heq; by eapply (Hold l')).
      by rewrite lookup_alter_ne.
    + rewrite dom_insert_L, dom_alter_L. set_solver.
  - apply (turn_frame w fuel schedule userMessage conversationHistory ws c0).
  - apply (turn_frame w fuel schedule userMessage conversationHistory ws c0).
Qed.

(** ** [/health] *)

Section Health.
Context (w : World).

(** C10.  [mcpConnected] only says that a client object has been built.  It
    is [true] exactly when [mcpClient] is not [null]; nothing resets the
    variable (no session function, and no client turn, whatever the
    interleaving of its tool invocations), so it stays [true] from the first
    [new Client] on; and in the state that [startup] leaves when the connect
    was rejected with an [UnauthorizedError] (authorization pending, no
    [connect] has ever succeeded) the route answers [mcpConnected: true]
    with [toolsAvailable: 0]. *)
Theorem health_reports_constructed_client e :
  w _ 0 (loadSavedTokens 0) = Ok tt ->
  w _ 1 (connect 2 1) = Err e ->
  instanceofUnauthorizedError e = true ->
  (forall g, mcpConnected (health g) = true <-> is_Some (mcpClient g)) /\
  (forall f c,
     mcpConnected (health (mem c)) = true ->
     mcpConnected (health (mem (run w (body_of f) c).2)) = true) /\
  (forall fuel schedule ws data c,
     mcpConnected (health (session (mem c))) = true ->
     mcpConnected (health (session (mem (run w (onMessage fuel schedule ws data) c).2))) = true) /\
  let awaiting := (run w startup (mkConfig start 0 [])).2 in
  (run w startup (mkConfig start 0 [])).1 = Returned tt /\
  pendingAuthorization (trace awaiting) = true /\
  existsb connectSucceeded (trace awaiting) = false /\
  health (mem awaiting) = {| status := "ok"; mcpConnected := true; toolsAvailable := 0 |}.
Proof.
  intros Hload Hconnect Hunauthorized.
  assert (Hiff : forall g, mcpConnected (health g) = true <-> is_Some (mcpClient g)).
  { intros g. unfold health. simpl. rewrite bool_decide_eq_true.
    destruct (mcpClient g) as [c|].
    - split; [intros _; by exists c | done].
    - split; [done | by intros [? ?]]. }
  split; [done|]. split; [|split].
  - intros f c. rewrite !Hiff.
    destruct (run w (body_of f) c) as [o c'] eqn:Hrun.
    by destruct (obeys_run keepsClient anyOutcome w _ _ _ _ (body_keepsClient f) Hrun).
  - intros fuel schedule ws data c. rewrite !Hiff.
    destruct (run w (onMessage fuel schedule ws data) c) as [o c'] eqn:Hrun.
    by destruct (obeys_run sessionKeepsClient anyOutcome w _ _ _ _
                   (onMessage_keepsClient fuel schedule ws data) Hrun).
  - unfold startup, initializeMCPClient. rewrite !run_tryCatch. simpl.
    rewrite Hload. simpl. rewrite Hconnect. simpl. rewrite Hunauthorized. simpl.
    unfold pendingAuthorization. simpl. by rewrite Hunauthorized.
Qed.

End Health.

(** ** The tool results of a round *)

(** [index.ts]: whatever the world answers and in whatever order the
    invocations complete, when [Promise.all] fulfils there is one result
    per requested call, in the order of the calls, each carrying the
    identifier of its call. *)
Lemma tool_results_in_call_order w toolUseBlocks sched c results c' :
  run w (inSession (promiseAll (map callToolWithRetry toolUseBlocks) sched)) c
    = (Returned results, c') ->
  map tool_use_id results = map id toolUseBlocks.
Proof.
  intros Hrun. apply answers_in_order.
  assert (Hbatch : obeys anyStep (allOf (map answers toolUseBlocks))
            (inSession (promiseAll (map callToolWithRetry toolUseBlocks) sched))).
  { apply obeys_zoom; [done|]. apply obeys_promiseAll, invocations_obey. }
  by destruct (obeys_run anyStep _ w _ _ _ _ Hbatch Hrun).
Qed.

(** *** A model turn that asks for two tools at once *)

Definition get_market : McpTool :=
  {| mcp_name := "get_market"; mcp_description := None; inputSchema := "{}" |}.

Definition firstCall : ToolUseBlock :=
  {| id := "toolu_1"; tool_name := "get_market"; input := "{a}" |}.
Definition secondCall : ToolUseBlock :=
  {| id := "toolu_2"; tool_name := "list_tags"; input := "{b}" |}.

Definition twoCalls : ModelResponse :=
  {| stop_reason := tool_use;
     response_content :=
       [text_block "Let me look."; tool_use_block firstCall; tool_use_block secondCall] |}.

Definition closing : ModelResponse :=
  {| stop_reason := end_turn; response_content := [text_block "hello  big world"] |}.

(** The model asks for two tools on the first request and answers in text
    afterwards; every tool call succeeds with the tool's name as content. *)
Definition asksTwice : World := fun X t op =>
  match op in Ext X return X with
  | callTool _ tool _ => Ok tool
  | close _ => Ok tt
  | connect _ _ => Ok tt
  | listTools _ => Ok [get_market]
  | listPrompts _ => Ok []
  | listResources _ => Ok []
  | finishAuth _ _ => Ok tt
  | loadSavedTokens _ => Ok tt
  | clearPendingAuth _ => tt
  | messages_create _ system _ _ => Ok (if system then twoCalls else closing)
  | setTimeout _ => tt
  end.

(** A connected backend (as [startup] leaves it) with one client socket, 7,
    whose history is the empty array at location 0. *)
Definition connected : Globals :=
  mkGlobals (Some 2) (Some 1) (Some 0) [toAnthropicTool get_market] 3.

Definition oneSocket : Config Mem :=
  mkConfig (mkMem connected {[ 0 := [] ]} {[ 7 := 0 ]} []) 0 [].

Definition question : MessageParam := {| role := user; body := plain "hi" |}.

(** C3, on the older backend.  The model asks for two tools in one turn:
    [part_000] invokes the first one only, and the array of messages it
    sends back to the model (location 1) holds, after the user message and
    the assistant message with its two tool calls, a tool-result message
    with a single entry: the second call gets no result. *)
Theorem part000_answers_first_call_only :
  let r := run asksTwice (Part000.processMessageWithClaude 5 "hi" 0 7) oneSocket in
  arrays (mem r.2) !! 1 =
    Some [ question;
           {| role := assistant; body := blocks (response_content twoCalls) |};
           {| role := user;
              body := tool_results [ {| tool_use_id := "toolu_1"; content := "get_market" |} ] |} ] /\
  length (filterToolUse (response_content twoCalls)) = 2.
Proof. vm_compute. done. Qed.

(** The same turn on [index.ts], the second invocation completing first:
    both calls are answered, in the order of the calls. *)
Lemma index_answers_both_calls :
  let r := run asksTwice (processMessageWithClaude 5 (fun _ => [1; 0]) "hi" 0 7) oneSocket in
  arrays (mem r.2) !! 1 =
    Some [ question;
           {| role := assistant; body := blocks (response_content twoCalls) |};
           {| role := user;
              body := tool_results [ {| tool_use_id := "toolu_1"; content := "get_market" |};
                                     {| tool_use_id := "toolu_2"; content := "list_tags" |} ] |} ].
Proof. vm_compute. done. Qed.

(** ** The theorems at concrete inputs *)

Definition expired : Thrown := newError "Error POSTing to endpoint: Session not found or expired".
Definition unauthorized : Thrown := ErrorObject true "Error" "Unauthorized".
Definition refused : Thrown := newError "Connection error.".

(** A world given by what tool calls, connects and model requests get at
    each time; both best-effort listings are rejected. *)
Definition scripted (tool : nat -> Result Json) (handshake : nat -> Result unit)
    (model : bool -> Result ModelResponse) : World := fun X t op =>
  match op in Ext X return X with
  | callTool _ _ _ => tool t
  | close _ => Ok tt
  | connect _ _ => handshake t
  | listTools _ => Ok [get_market]
  | listPrompts _ => Err (newError "Method not found")
  | listResources _ => Err (newError "Method not found")
  | finishAuth _ _ => Ok tt
  | loadSavedTokens _ => Ok tt
  | clearPendingAuth _ => tt
  | messages_create _ system _ _ => model system
  | setTimeout _ => tt
  end.

(** The session expires once: the tool call made at time 0 is rejected. *)
Definition expiresOnce : World :=
  scripted (fun t => if (t =? 0)%nat then Err expired else Ok "[]")
    (fun _ => Ok tt) (fun _ => Ok closing).

(** The provider keeps rejecting the session. *)
Definition alwaysExpired : World :=
  scripted (fun _ => Err expired) (fun _ => Ok tt) (fun _ => Ok closing).

(** The first connect (time 1) demands an authorization. *)
Definition authorizationDemanded : World :=
  scripted (fun _ => Ok "[]")
    (fun t => if (t =? 1)%nat then Err unauthorized else Ok tt) (fun _ => Ok closing).

(** The model provider is unreachable. *)
Definition modelDown : World :=
  scripted (fun _ => Ok "[]") (fun _ => Ok tt) (fun _ => Err refused).

Definition afterFirstFailure : Config Globals :=
  attempted firstCall connected 0 [] 2 (Err expired).





Lemma failure_propagation_witness :
  run alwaysExpired (callToolWithRetry firstCall) (mkConfig connected 0 [])
    = (Thrown_ expired,
       attempted firstCall
         (mem (run alwaysExpired reconnectMCPSession afterFirstFailure).2) 6
         (trace (run alwaysExpired reconnectMCPSession afterFirstFailure).2) 4 (Err expired)).
Proof.
  refine (proj1 (proj2 (failure_propagation alwaysExpired firstCall connected 0 [] 2 expired
                          _ _)) _ _ 4 expired _ _ _).
  - reflexivity.
  - reflexivity.
  - vm_compute. reflexivity.
  - vm_compute. reflexivity.
  - vm_compute. reflexivity.
  - vm_compute. reflexivity.
Defined.

Lemma best_effort_listings_non_fatal_witness :
  run expiresOnce initializeTools (mkConfig connected 0 []) =
    (Returned tt,
     mkConfig (set_availableTools (map toAnthropicTool [get_market]) connected) 3
       [Ev (listTools 2) (Ok [get_market]);
        Ev (listPrompts 2) (Err (newError "Method not found"));
        Ev (listResources 2) (Err (newError "Method not found"))]).
Proof.
  refine (proj1 (best_effort_listings_non_fatal expiresOnce connected 0 []) 2 [get_market] _ _).
  - reflexivity.
  - reflexivity.
Defined.

Lemma health_reports_constructed_client_witness :
  health (mem (run authorizationDemanded startup (mkConfig start 0 [])).2)
    = {| status := "ok"; mcpConnected := true; toolsAvailable := 0 |}.
Proof.
  refine (proj2 (proj2 (proj2 (proj2 (proj2 (proj2
    (health_reports_constructed_client authorizationDemanded unauthorized _ _ _))))))).
  all: vm_compute; reflexivity.
Defined.

Lemma first_text_block_streamed_witness :
  sent (mem (run asksTwice (processMessageWithClaude 5 (fun _ => [1; 0]) "hi" 0 7) oneSocket).2)
    = [(7, "hello "); (7, " "); (7, "big "); (7, "world"); (7, "[END]")].
Proof.
  refine (proj1 (proj2 (proj2
    (first_text_block_streamed asksTwice 5 (fun _ => [1; 0]) "hi" 0 7 oneSocket closing
       (run asksTwice (converse 5 (fun _ => [1; 0]) "hi" 0) oneSocket).2
       [] "hello  big world" [] _ _ _)))).
  - vm_compute. reflexivity.
  - reflexivity.
  - constructor.
Defined.

Definition twoTexts : ModelResponse :=
  {| stop_reason := end_turn;
     response_content := [text_block "Yes is at 62%."; text_block " No is at 38%."] |}.

(** The model answers in two text blocks. *)
Definition answersInTwoBlocks : World := fun X t op =>
  match op in Ext X return X with
  | callTool _ tool _ => Ok tool
  | close _ => Ok tt
  | connect _ _ => Ok tt
  | listTools _ => Ok [get_market]
  | listPrompts _ => Ok []
  | listResources _ => Ok []
  | finishAuth _ _ => Ok tt
  | loadSavedTokens _ => Ok tt
  | clearPendingAuth _ => tt
  | messages_create _ _ _ _ => Ok twoTexts
  | setTimeout _ => tt
  end.

(** The claim as written fails for a final response with two text blocks:
    only the first one is streamed, so the chunks do not add up to the
    text portion of the response. *)
Lemma later_text_blocks_not_streamed :
  let r := run answersInTwoBlocks (processMessageWithClaude 5 (fun _ => []) "hi" 0 7) oneSocket in
  (run answersInTwoBlocks (converse 5 (fun _ => []) "hi" 0) oneSocket).1 = Returned twoTexts /\
  final twoTexts /\
  filterToolUse (response_content twoTexts) = [] /\
  textPortion twoTexts = "Yes is at 62%. No is at 38%." /\
  r.1 = Returned tt /\
  map snd (sent (mem r.2)) = ["Yes "; "is "; "at "; "62%."; "[END]"] /\
  joined ["Yes "; "is "; "at "; "62%."] <> textPortion twoTexts.
Proof.
  vm_compute. repeat split; try discriminate. left. discriminate.
Qed.

Lemma error_reported_then_end_marker_witness :
  sent (mem (run modelDown (processMessageWithClaude 5 (fun _ => []) "hi" 0 7) oneSocket).2)
    = [(7, "Error: Connection error."); (7, "[END]")].
Proof.
  refine (proj1 (proj2
    (error_reported_then_end_marker modelDown 5 (fun _ => []) "hi" 0 7 oneSocket refused
       (run modelDown (tryBlock 5 (fun _ => []) "hi" 0 7) oneSocket).2 _))).
  vm_compute. reflexivity.
Defined.

Lemma stored_history_gains_only_user_message_witness :
  arrays (mem (run asksTwice (onMessage 5 (fun _ => [1; 0]) 7 "hi") oneSocket).2) !! 0
    = Some [question].
Proof.
  refine (proj1 (proj2
    (stored_history_gains_only_user_message asksTwice 5 (fun _ => [1; 0]) 7 "hi" oneSocket 0 []
       _ _))).
  - vm_compute. reflexivity.
  - vm_compute. reflexivity.
Defined.


(** * Further properties of the backend *)

(** ** Start-up *)

(** The first failure among the three operations of the initial connect
    that are not wrapped in a [try] of their own. *)
Definition connectFailure (w : World) : option Thrown :=
  match w _ 0 (loadSavedTokens 0) with
  | Err e => Some e
  | Ok _ =>
      match w _ 1 (connect 2 1) with
      | Err e => Some e
      | Ok _ =>
          match w _ 2 (listTools 2) with
          | Err e => Some e
          | Ok _ => None
          end
      end
  end.

(** Walks through every path of a program. *)
Ltac paths :=
  repeat (simpl;
    match goal with
    | |- forall _, _ => intro
    | |- _ /\ _ => split
    | |- anyStep _ _ => exact I
    | |- True => exact I
    | |- _ = _ => reflexivity
    | |- _ \/ _ => (left; reflexivity) || (right; reflexivity)
    | |- context [match ?x with _ => _ end] => destruct x
    | |- context [if ?x then _ else _] => destruct x
    end).

Section Startup.
Context (w : World).

Transparent tryListPrompts tryListResources initializeTools.

Lemma startup_obeys : obeys anyStep (fun o => o = Returned tt \/ o = Exited 1) startup.
Proof.
  unfold startup, initializeMCPClient, tryListPrompts, tryListResources, theClient, new,
    await, assign.
  paths.
Qed.

(** [startup] ends in two ways only: it returns, or it ends the process with
    exit code 1; it never throws.  From the initial state of the module it
    exits exactly when the first of [loadSavedTokens], [connect] and
    [listTools] to fail fails with something else than an
    [UnauthorizedError]: an authorization demand at any of the three is
    taken as "OAuth in progress", and the two best-effort listings never
    count. *)
Theorem startup_exits_unless_authorization :
  (forall c, (run w startup c).1 = Returned tt \/ (run w startup c).1 = Exited 1) /\
  (run w startup (mkConfig start 0 [])).1 =
    match connectFailure w with
    | Some e => if instanceofUnauthorizedError e then Returned tt else Exited 1
    | None => Returned tt
    end.
Proof.
  split.
  - intros c. destruct (run w startup c) as [o c'] eqn:Hrun.
    by destruct (obeys_run anyStep _ w _ _ _ _ startup_obeys Hrun).
  - unfold startup, initializeMCPClient, connectFailure. rewrite !run_tryCatch. simpl.
    destruct (w _ 0 (loadSavedTokens 0)) as [[]|e]; simpl.
    2: { by destruct (instanceofUnauthorizedError e). }
    destruct (w _ 1 (connect 2 1)) as [[]|e]; simpl.
    2: { by destruct (instanceofUnauthorizedError e). }
    destruct (w _ 2 (listTools 2)) as [tools|e]; simpl.
    2: { by destruct (instanceofUnauthorizedError e). }
    unfold tryListPrompts, tryListResources. simpl.
    destruct (w _ 3 (listPrompts 2)); simpl; destruct (w _ 4 (listResources 2)); done.
Qed.

End Startup.

(** The older backend has no authorization path: whatever makes the
    connect or the tools listing fail ends the process. *)
Definition part000ConnectFailure (w : World) : option Thrown :=
  match w _ 0 (connect 1 0) with
  | Err e => Some e
  | Ok _ =>
      match w _ 1 (listTools 1) with
      | Err e => Some e
      | Ok _ => None
      end
  end.

Section Part000Startup.
Context (w : World).

Transparent tryListPrompts tryListResources.

(** [startup] of the older backend, from the initial state: the process
    exits with code 1 as soon as the connect or the tools listing fails,
    whatever the failure (an authorization demand included), and returns
    otherwise; the two best-effort listings never count. *)
Theorem part000_startup_exits_on_any_failure :
  (run w Part000.startup (mkConfig start 0 [])).1 =
    match part000ConnectFailure w with
    | Some _ => Exited 1
    | None => Returned tt
    end.
Proof.
  unfold Part000.startup, Part000.initializeMCPClient, part000ConnectFailure.
  rewrite !run_tryCatch. simpl.
  destruct (w _ 0 (connect 1 0)) as [[]|e]; simpl; [|done].
  destruct (w _ 1 (listTools 1)) as [tools|e]; simpl; [|done].
  unfold tryListPrompts, tryListResources. simpl.
  destruct (w _ 2 (listPrompts 1)); simpl; destruct (w _ 3 (listResources 1)); done.
Qed.

End Part000Startup.

(** ** The OAuth callback route *)

Section Callback.
Context (w : World).

Transparent tryListPrompts tryListResources initializeTools.

Lemma reconnectAfterAuth_settles authCode :
  obeys anyStep settles (reconnectAfterAuth authCode).
Proof.
  unfold reconnectAfterAuth, initializeTools, tryListPrompts, tryListResources,
    theClient, theProvider, await, call, assign.
  paths.
Qed.

(** The OAuth callback route always answers, and never throws.  Without a
    (non-empty) [code] it touches nothing, calls nothing and answers 400,
    with the provider's [error] when there is one.  With a [code] it runs
    [reconnectAfterAuth] on it, whether or not an [error] came along, and
    answers 200 when [reconnectAfterAuth] returns and 500 with the message
    of the error when it throws; the state is the one [reconnectAfterAuth]
    leaves. *)
Theorem oauth_callback_answers code error c :
  let r := run w (oauthCallback code error) c in
  (truthy code = false ->
   r = (Returned {| statusCode := 400;
                    page := if truthy error then AuthorizationFailed (default "" error)
                            else InvalidOAuthCallback |}, c)) /\
  (truthy code = true ->
   match run w (reconnectAfterAuth (default "" code)) c with
   | (Returned _, c') =>
       r = (Returned {| statusCode := 200; page := AuthenticationSuccessful |}, c')
   | (Thrown_ e, c') =>
       r = (Returned {| statusCode := 500; page := AuthenticationFailed (reportedMessage e) |}, c')
   | _ => False
   end).
Proof.
  intros r. subst r. unfold oauthCallback. split; intros ->.
  - by destruct (truthy error).
  - rewrite run_tryCatch, run_bind.
    destruct (run w (reconnectAfterAuth _) c) as [o c'] eqn:Hrun.
    destruct (obeys_run anyStep _ w _ _ _ _ (reconnectAfterAuth_settles _) Hrun) as [_ Ho].
    by destruct o as [[]| | |].
Qed.

End Callback.

Section CallbackFailures.
Context (w : World).

(** A callback that comes before the transport or the provider exists is
    answered 500 "OAuth provider not initialized"; nothing is called and
    nothing changes. *)
Theorem oauth_callback_before_provider code error g t tr :
  truthy code = true ->
  mcpTransport g = None \/ oauthProvider g = None ->
  run w (oauthCallback code error) (mkConfig g t tr) =
    (Returned {| statusCode := 500;
                 page := AuthenticationFailed "OAuth provider not initialized" |},
     mkConfig g t tr).
Proof.
  intros Hcode Hnone. unfold oauthCallback, reconnectAfterAuth. rewrite Hcode. simpl.
  destruct Hnone as [-> | ->]; [done|]. by destruct (mcpTransport g).
Qed.

(** The two failures of a callback on an initialized backend.  A code that
    [finishAuth] rejects: 500 with that error, after that one call, the
    pending authorization left as it was.  A tools listing that fails after
    the code was accepted: 500 with that error, while the pending
    authorization has already been cleared and the catalogue is unchanged. *)
Theorem oauth_callback_failure code error g t tr transport p c :
  truthy code = true ->
  mcpTransport g = Some transport ->
  oauthProvider g = Some p ->
  mcpClient g = Some c ->
  let authCode := default "" code in
  let r := run w (oauthCallback code error) (mkConfig g t tr) in
  (forall e,
     w _ t (finishAuth transport authCode) = Err e ->
     r = (Returned {| statusCode := 500; page := AuthenticationFailed (reportedMessage e) |},
          mkConfig g (S t) (tr ++ [Ev (finishAuth transport authCode) (Err e)]))) /\
  (forall e,
     w _ t (finishAuth transport authCode) = Ok tt ->
     w _ (S (S t)) (listTools c) = Err e ->
     r = (Returned {| statusCode := 500; page := AuthenticationFailed (reportedMessage e) |},
          mkConfig g (S (S (S t)))
            (tr ++ [Ev (finishAuth transport authCode) (Ok tt);
                    Ev (clearPendingAuth p) tt;
                    Ev (listTools c) (Err e)]))).
Proof.
  intros Hcode Htransport Hp Hc authCode r. subst authCode r.
  unfold oauthCallback, reconnectAfterAuth. rewrite Hcode. simpl.
  rewrite Htransport, Hp. simpl. split.
  - intros e ->. simpl. done.
  - intros e -> Htools. simpl. rewrite Hp. simpl.
    rewrite run_tryCatch, run_bind, (run_initializeTools w _ _ _ c Hc). simpl.
    rewrite Htools. destruct (w _ (S t) (clearPendingAuth p)).
    by rewrite <- !app_assoc.
Qed.

End CallbackFailures.

(** ** The callback never connects *)

(** Every operation that [p] can ask for, with whatever answer, is an event
    accepted by [P]. *)
Fixpoint asksOnly {St A} (P : Event -> bool) (p : Prog St A) : Prop :=
  match p with
  | Ret _ | Throw _ | Exit _ | Bottom => True
  | Get k => forall s, asksOnly P (k s)
  | Modify f k => asksOnly P k
  | Await op k => forall x, P (Ev op x) = true /\ asksOnly P (k x)
  end.

Lemma asksOnly_run {St A} (P : Event -> bool) w (p : Prog St A) c :
  asksOnly P p ->
  exists events,
    trace (run w p c).2 = trace c ++ events /\ forallb P events = true.
Proof.
  revert c. induction p as [| | | |k IH|f k IH|X op k IH]; intros c; simpl; intros Hp;
    try (by exists []; rewrite app_nil_r).
  - by apply IH.
  - by apply (IH (mkConfig (f (mem c)) (clock c) (trace c))).
  - destruct (Hp (w X (clock c) op)) as [Hop Hk].
    destruct (IH _ (mkConfig (mem c) (S (clock c)) (trace c ++ [Ev op (w X (clock c) op)])) Hk)
      as (events & -> & Hevents).
    exists (Ev op (w X (clock c) op) :: events). simpl. rewrite <- app_assoc.
    split; [done|]. by rewrite Hop.
Qed.

Section NeverConnects.

Transparent tryListPrompts tryListResources initializeTools.

(** [reconnectAfterAuth] never asks for a [connect]. *)
Lemma reconnectAfterAuth_asks authCode :
  asksOnly (fun ev => negb (isConnect ev)) (reconnectAfterAuth authCode).
Proof.
  unfold reconnectAfterAuth, initializeTools, tryListPrompts, tryListResources,
    theClient, theProvider, await, call, assign.
  paths.
Qed.

End NeverConnects.

(** The server demands an authorization at the connect of client 2, and a
    client whose connect was rejected stays closed: its requests are
    rejected.  A client that connects afterwards is served. *)
Definition rejectedClientStaysClosed : World := fun X t op =>
  match op in Ext X return X with
  | callTool c tool _ => if (c =? 2)%nat then Err (newError "Not connected") else Ok tool
  | close _ => Ok tt
  | connect c _ => if (c =? 2)%nat then Err unauthorized else Ok tt
  | listTools c => if (c =? 2)%nat then Err (newError "Not connected") else Ok [get_market]
  | listPrompts c => if (c =? 2)%nat then Err (newError "Not connected") else Ok []
  | listResources c => if (c =? 2)%nat then Err (newError "Not connected") else Ok []
  | finishAuth _ _ => Ok tt
  | loadSavedTokens _ => Ok tt
  | clearPendingAuth _ => tt
  | messages_create _ _ _ _ => Ok closing
  | setTimeout _ => tt
  end.

(** C4.  The first half of the claim holds: when the initial connect is
    rejected with an [UnauthorizedError], [startup] returns and [/health]
    is answered.  The second half does not: the callback route, given a
    code that [finishAuth] accepts, clears the pending authorization and
    asks for the tools on client 2, the client whose connect was
    rejected, without connecting it or any other client.  With a client
    that stays closed after a rejected connect, the listing is rejected,
    the route answers 500 and the catalogue stays empty, no [connect]
    having ever succeeded.  In the same state [reconnectMCPSession], which
    connects a new client before it lists the tools, returns with the
    catalogue filled.  And whatever the world, [reconnectAfterAuth] asks
    for no [connect] at all. *)
Theorem callback_lists_tools_without_connecting :
  let w := rejectedClientStaysClosed in
  let awaiting := (run w startup (mkConfig start 0 [])).2 in
  let answered := run w (oauthCallback (Some "code") None) awaiting in
  let sibling := run w reconnectMCPSession awaiting in
  (run w startup (mkConfig start 0 [])).1 = Returned tt /\
  health (mem awaiting) = {| status := "ok"; mcpConnected := true; toolsAvailable := 0 |} /\
  answered.1 =
    Returned {| statusCode := 500; page := AuthenticationFailed "Not connected" |} /\
  trace answered.2 =
    [ Ev (loadSavedTokens 0) (Ok tt);
      Ev (connect 2 1) (Err unauthorized);
      Ev (finishAuth 1 "code") (Ok tt);
      Ev (clearPendingAuth 0) tt;
      Ev (listTools 2) (Err (newError "Not connected")) ] /\
  availableTools (mem answered.2) = [] /\
  existsb connectSucceeded (trace answered.2) = false /\
  pendingAuthorization (trace answered.2) = false /\
  sibling.1 = Returned tt /\
  map name (availableTools (mem sibling.2)) = ["get_market"] /\
  existsb connectSucceeded (trace sibling.2) = true /\
  (forall (w : World) authCode c,
     exists events,
       trace (run w (reconnectAfterAuth authCode) c).2 = trace c ++ events /\
       existsb isConnect events = false).
Proof.
  repeat split; try (vm_compute; reflexivity).
  intros w authCode c.
  destruct (asksOnly_run _ w _ c (reconnectAfterAuth_asks authCode)) as (events & Htrace & Hno).
  exists events. split; [done|].
  clear Htrace. induction events as [|ev events IH]; simpl in *; [done|].
  apply andb_prop in Hno as [Hev Hrest]. rewrite IH by done.
  by destruct (isConnect ev).
Qed.

(** ** The [/tools] route *)

(** After a catalogue refresh [/tools] lists exactly the tools that the
    server listed, in the same order, each with its name and its
    description (the empty string for a tool without one), and [/health]
    counts them; in every state [toolsAvailable] is the length of what
    [/tools] answers. *)
Theorem tools_route_after_refresh (w : World) g t tr c listed :
  mcpClient g = Some c ->
  w _ t (listTools c) = Ok listed ->
  let g' := mem (run w initializeTools (mkConfig g t tr)).2 in
  toolsRoute g' =
    map (fun tool => {| summary_name := mcp_name tool;
                        summary_description := default "" (mcp_description tool) |}) listed /\
  toolsAvailable (health g') = length listed /\
  (forall g0, toolsAvailable (health g0) = length (toolsRoute g0)).
Proof.
  intros Hc Htools g'. subst g'.
  rewrite (run_initializeTools w _ _ _ c Hc), Htools. simpl.
  unfold toolsRoute, health. simpl. rewrite map_map, !length_map.
  repeat split. intros g0. by rewrite length_map.
Qed.

(** ** Tool invocations that cannot be retried *)

Section FailedReconnect.
Context (w : World) (toolUse : ToolUseBlock).

(** A tool invocation while [mcpClient] is still [null] fails with the
    [TypeError] of the null dereference: nothing is called, no reconnect is
    tried and nothing changes. *)
Theorem call_without_client g t tr :
  mcpClient g = None ->
  run w (callToolWithRetry toolUse) (mkConfig g t tr) =
    (Thrown_ (nullDereference "callTool"), mkConfig g t tr).
Proof.
  intros Hc. unfold callToolWithRetry. simpl.
  by rewrite !run_bind, run_attempt_null.
Qed.

(** When the reconnect triggered by a session expiry fails, the invocation
    fails with the error of the reconnect, not with the session-expiry
    error, and is over in the configuration in which the reconnect failed:
    there is no second attempt. *)
Theorem failed_reconnect_replaces_error g t tr c e e' c2 :
  mcpClient g = Some c ->
  w _ t (callTool c (tool_name toolUse) (input toolUse)) = Err e ->
  sessionExpired e = true ->
  run w reconnectMCPSession (attempted toolUse g t tr c (Err e)) = (Thrown_ e', c2) ->
  run w (callToolWithRetry toolUse) (mkConfig g t tr) = (Thrown_ e', c2).
Proof.
  intros Hc Hcall Hexpired Hreconnect. unfold callToolWithRetry. simpl.
  rewrite !run_bind, (run_attempt _ _ _ _ _ c) by done.
  simpl. by rewrite Hcall, Hexpired, Hreconnect.
Qed.

Transparent reconnectMCPSession.

(** The four ways in which [reconnectMCPSession] fails, for a backend with a
    client.  If closing the stale client fails, nothing has changed.  If no
    OAuth provider exists, the stale client has been closed and is still
    the current one.  If the new connect fails, or the tools listing after
    it, [mcpClient] and [mcpTransport] already hold the new objects, while
    the catalogue is the old one. *)
Theorem reconnect_failure_modes g t tr c :
  mcpClient g = Some c ->
  let r := run w reconnectMCPSession (mkConfig g t tr) in
  (forall e,
     w _ t (close c) = Err e ->
     r = (Thrown_ e, mkConfig g (S t) (tr ++ [Ev (close c) (Err e)]))) /\
  (w _ t (close c) = Ok tt ->
   oauthProvider g = None ->
   r = (Thrown_ (newError "OAuth provider not initialized"),
        mkConfig g (S t) (tr ++ [Ev (close c) (Ok tt)]))) /\
  (forall p e,
     w _ t (close c) = Ok tt ->
     oauthProvider g = Some p ->
     w _ (S t) (connect (S (constructed g)) (constructed g)) = Err e ->
     r = (Thrown_ e,
          mkConfig
            (mkGlobals (Some (S (constructed g))) (Some (constructed g)) (Some p)
               (availableTools g) (S (S (constructed g))))
            (S (S t))
            (tr ++ [Ev (close c) (Ok tt);
                    Ev (connect (S (constructed g)) (constructed g)) (Err e)]))) /\
  (forall p e,
     w _ t (close c) = Ok tt ->
     oauthProvider g = Some p ->
     w _ (S t) (connect (S (constructed g)) (constructed g)) = Ok tt ->
     w _ (S (S t)) (listTools (S (constructed g))) = Err e ->
     r = (Thrown_ e,
          mkConfig
            (mkGlobals (Some (S (constructed g))) (Some (constructed g)) (Some p)
               (availableTools g) (S (S (constructed g))))
            (S (S (S t)))
            (tr ++ [Ev (close c) (Ok tt);
                    Ev (connect (S (constructed g)) (constructed g)) (Ok tt);
                    Ev (listTools (S (constructed g))) (Err e)]))).
Proof.
  intros Hc r. subst r. unfold reconnectMCPSession. simpl. rewrite Hc. simpl.
  split; [|split; [|split]].
  - by intros e ->.
  - intros -> Hp. simpl. by rewrite Hp.
  - intros p e -> Hp Hconnect. simpl. rewrite Hp. simpl. rewrite Hconnect. simpl.
    unfold set_mcpClient, set_constructed, set_mcpTransport. simpl.
    by rewrite Hp, <- !app_assoc.
  - intros p e -> Hp Hconnect Htools. simpl. rewrite Hp. simpl. rewrite Hconnect. simpl.
    erewrite run_initializeTools by done. rewrite Htools.
    unfold set_mcpClient, set_constructed, set_mcpTransport. simpl.
    by rewrite Hp, <- !app_assoc.
Qed.

End FailedReconnect.

(** ** The cost of streaming *)

(** The number of space characters of a text. *)
Fixpoint spaces (s : string) : nat :=
  match s with
  | EmptyString => 0
  | String c s' => (if Ascii.eqb c Ascii.Space then 1 else 0) + spaces s'
  end.

Lemma length_split_space s : length (split_space s) = S (spaces s).
Proof.
  induction s as [|c s IH]; simpl; [done|].
  destruct (Ascii.eqb c Ascii.Space); simpl; [by rewrite IH|].
  destruct (split_space s); simpl in *; [done | lia].
Qed.

Lemma length_chunks fullText : length (chunks fullText) = S (spaces fullText).
Proof. unfold chunks. by rewrite length_map, length_seq, length_split_space. Qed.

(** The timers awaited while [n] chunks are sent. *)
Definition timers (n : nat) : list Event := replicate n (Ev (setTimeout 10) tt).

Section StreamingCost.
Context (w : World) (ws : WebSocket).

Transparent streamFinal.

Lemma run_forEach_send_timers (f : nat -> string) xs m t tr :
  run w (forEach xs (fun i => send ws (f i);; call (setTimeout 10))) (mkConfig m t tr) =
    (Returned tt,
     mkConfig (set_sent (sent m ++ map (fun i => (ws, f i)) xs) m) (t + length xs)
       (tr ++ timers (length xs))).
Proof.
  revert m t tr. induction xs as [|x xs IH]; intros m t tr; simpl.
  - rewrite !app_nil_r, Nat.add_0_r. by destruct m.
  - rewrite IH. destruct (w _ t (setTimeout 10)). f_equal. f_equal; [|lia|].
    + unfold set_sent. simpl. by rewrite <- app_assoc.
    + by rewrite <- app_assoc.
Qed.

(** Streaming a response with a text: one frame per chunk and then
    ["[END]"], one 10 ms timer awaited after every chunk (the last one
    included), and nothing else; there is one chunk more than there are
    spaces in the text.  A response without a text block: the single frame
    ["[END]"], at once. *)
Theorem streaming_frames_and_timers response m t tr :
  run w (streamFinal ws response) (mkConfig m t tr) =
    match findText (response_content response) with
    | Some fullText =>
        (Returned tt,
         mkConfig (set_sent (sent m ++ map (pair ws) (chunks fullText ++ [END])) m)
           (t + S (spaces fullText))
           (tr ++ timers (S (spaces fullText))))
    | None =>
        (Returned tt, mkConfig (set_sent (sent m ++ [(ws, END)]) m) t tr)
    end.
Proof.
  unfold streamFinal. rewrite run_bind.
  destruct (findText (response_content response)) as [fullText|]; [|done].
  rewrite run_forEach_send_timers. simpl.
  f_equal. f_equal.
  - unfold set_sent, chunks. simpl. f_equal.
    by rewrite <- app_assoc, map_app, map_map.
  - by rewrite length_seq, length_split_space.
  - by rewrite length_seq, length_split_space.
Qed.

End StreamingCost.

(** ** The requests made to the model *)

Lemma map_rebuild (history : list MessageParam) :
  map (fun msg => {| role := role msg; body := body msg |}) history = history.
Proof. induction history as [|[] history IH]; simpl; [done|]. by rewrite IH. Qed.

Definition userTurn (userMessage : string) : MessageParam :=
  {| role := user; body := plain userMessage |}.

Section Requests.
Context (w : World) (fuel : nat) (schedule : nat -> list nat).

Transparent createMessage.

(** The first request of a turn, and where the turn goes from there. *)
Lemma run_converse userMessage conversationHistory m t tr :
  let msgs := default [] (arrays m !! conversationHistory) ++ [userTurn userMessage] in
  let messages := fresh (dom (arrays m)) in
  let m' := set_arrays (<[messages:=msgs]> (arrays m)) m in
  let request := messages_create "claude-haiku-4-5" true msgs (availableTools (session m)) in
  run w (converse fuel schedule userMessage conversationHistory) (mkConfig m t tr) =
    match w _ t request with
    | Ok response =>
        run w (toolUseLoop fuel schedule 0 messages response)
          (mkConfig m' (S t) (tr ++ [Ev request (Ok response)]))
    | Err e => (Thrown_ e, mkConfig m' (S t) (tr ++ [Ev request (Err e)]))
    end.
Proof.
  unfold converse, createMessage, readArray, newArray. simpl.
  rewrite lookup_insert_eq, map_rebuild. unfold userTurn. simpl.
  match goal with |- context [w _ t ?op] => destruct (w _ t op) as [response|e] end; done.
Qed.

Lemma run_toolUseLoop_final round messages response c :
  final response ->
  run w (toolUseLoop (S fuel) schedule round messages response) c = (Returned response, c).
Proof.
  intros [Hstop | Hnone]; simpl.
  - by destruct (stop_reason response).
  - rewrite Hnone. by destruct (stop_reason response).
Qed.

End Requests.

Section TurnRequests.
Context (w : World) (fuel : nat) (schedule : nat -> list nat).

(** The number of chunks in which a response is streamed. *)
Definition chunkCount (response : ModelResponse) : nat :=
  match findText (response_content response) with
  | Some fullText => S (spaces fullText)
  | None => 0
  end.

(** A turn whose first response is final (its stop reason is not
    ["tool_use"], possibly with tool calls in its content, or it holds no
    tool call): one model request and no tool call; the session variables
    are untouched, the response is streamed, and the only array written is
    the turn's own. *)
Theorem turn_without_tools userMessage conversationHistory ws m t tr response :
  let msgs := default [] (arrays m !! conversationHistory) ++ [userTurn userMessage] in
  let request := messages_create "claude-haiku-4-5" true msgs (availableTools (session m)) in
  w _ t request = Ok response ->
  final response ->
  run w (processMessageWithClaude (S fuel) schedule userMessage conversationHistory ws)
      (mkConfig m t tr) =
    (Returned tt,
     mkConfig
       (set_sent (sent m ++ map (pair ws) (streamed response))
          (set_arrays (<[fresh (dom (arrays m)):=msgs]> (arrays m)) m))
       (S t + chunkCount response)
       (tr ++ Ev request (Ok response) :: timers (chunkCount response))).
Proof.
  intros msgs request Hanswer Hfinal. subst msgs request.
  rewrite run_processMessageWithClaude, run_converse. cbv zeta. rewrite Hanswer.
  rewrite run_toolUseLoop_final by done.
  rewrite streaming_frames_and_timers. unfold streamed, chunkCount.
  destruct (findText (response_content response)) as [fullText|]; simpl.
  - by rewrite <- app_assoc.
  - by rewrite Nat.add_0_r.
Qed.

Lemma turn_first_request userMessage conversationHistory ws m t tr :
  let msgs := default [] (arrays m !! conversationHistory) ++ [userTurn userMessage] in
  let request := messages_create "claude-haiku-4-5" true msgs (availableTools (session m)) in
  exists rest,
    trace (run w (processMessageWithClaude fuel schedule userMessage conversationHistory ws)
             (mkConfig m t tr)).2
      = tr ++ Ev request (w _ t request) :: rest.
Proof.
  intros msgs request. subst msgs request.
  rewrite run_processMessageWithClaude, run_converse. simpl.
  match goal with |- context [w _ t ?op] => destruct (w _ t op) as [response|e] end.
  - match goal with
    | |- context [run w (toolUseLoop ?f ?s ?r ?l ?x) ?c0] =>
        destruct (run w (toolUseLoop f s r l x) c0) as [o c1] eqn:Hloop
    end.
    apply run_extends in Hloop as (events & Htrace & _). simpl in Htrace.
    destruct o as [response'|e|code|]; simpl.
    + destruct (run w (streamFinal ws response') c1) as [o2 c2] eqn:Hstream. simpl.
      apply run_extends in Hstream as (events' & -> & _). rewrite Htrace.
      exists (events ++ events'). by rewrite <- !app_assoc.
    + exists events. unfold catchBlock. simpl. by rewrite Htrace, <- app_assoc.
    + exists events. by rewrite Htrace, <- app_assoc.
    + exists events. by rewrite Htrace, <- app_assoc.
  - exists []. unfold catchBlock. simpl. done.
Qed.

(** The first request of a turn carries the system prompt, the catalogue as
    it is when the message arrives, and as messages the stored history of
    the socket followed by the new user message: [history.slice(0, -1)]
    undoes the [push] that precedes it. *)
Theorem first_request_carries_history ws data c l h :
  conversationHistories (mem c) !! ws = Some l ->
  arrays (mem c) !! l = Some h ->
  let request :=
    messages_create "claude-haiku-4-5" true (h ++ [userTurn data]) (availableTools (session (mem c))) in
  exists rest,
    trace (run w (onMessage fuel schedule ws data) c).2
      = trace c ++ Ev request (w _ (clock c) request) :: rest.
Proof.
  intros Hws Hl request. subst request. destruct c as [m t tr]. simpl in *.
  unfold onMessage, push, readArray, newArray, assign. simpl. rewrite Hws. simpl.
  rewrite lookup_alter_eq, Hl. simpl.
  rewrite length_app. simpl. replace (length h + 1 - 1) with (length h) by lia.
  rewrite take_app_length.
  match goal with
  | |- context [run w (processMessageWithClaude ?f ?s ?u ?a ?x) (mkConfig ?m0 ?t0 ?tr0)] =>
      destruct (turn_first_request u a x m0 t0 tr0) as [rest ->]
  end.
  simpl. rewrite lookup_insert_eq. simpl. by exists rest.
Qed.

(** A message on a socket without an entry in the map (after [close], say):
    the turn is run on the new message alone, and the map still has no
    entry for the socket afterwards, so this message is not remembered
    either. *)
Theorem message_on_unknown_socket ws data c :
  conversationHistories (mem c) !! ws = None ->
  let r := run w (onMessage fuel schedule ws data) c in
  let request := messages_create "claude-haiku-4-5" true [userTurn data] (availableTools (session (mem c))) in
  conversationHistories (mem r.2) = conversationHistories (mem c) /\
  exists rest, trace r.2 = trace c ++ Ev request (w _ (clock c) request) :: rest.
Proof.
  intros Hws r request. subst r request. destruct c as [m t tr]. simpl in *.
  unfold onMessage, push, readArray, newArray, assign. simpl. rewrite Hws. simpl.
  rewrite lookup_alter_eq, lookup_insert_eq. simpl.
  split.
  - match goal with
    | |- context [run w (processMessageWithClaude ?f ?s ?u ?a ?x) ?c0] =>
        destruct (turn_frame w f s u a x c0) as (_ & Hhistories & _)
    end.
    by rewrite Hhistories.
  - match goal with
    | |- context [run w (processMessageWithClaude ?f ?s ?u ?a ?x) (mkConfig ?m0 ?t0 ?tr0)] =>
        destruct (turn_first_request u a x m0 t0 tr0) as [rest ->]
    end.
    simpl. rewrite lookup_insert_eq. simpl. by exists rest.
Qed.

End TurnRequests.

(** ** The follow-up request of a tool round *)

Lemma pushed_twice (messages : loc) (a b : MessageParam) msgs
    (arrays : gmap loc (list MessageParam)) :
  arrays !! messages = Some msgs ->
  alter (fun x => x ++ [b]) messages (alter (fun x => x ++ [a]) messages arrays)
    = <[messages:=msgs ++ [a; b]]> arrays.
Proof.
  intros Hmsgs. apply map_eq. intros l. destruct (decide (l = messages)) as [->|Hne].
  - rewrite !lookup_alter_eq, lookup_insert_eq, Hmsgs. simpl. by rewrite <- app_assoc.
  - by rewrite !lookup_alter_ne, lookup_insert_ne.
Qed.

Section FollowUp.
Context (w : World) (fuel : nat) (schedule : nat -> list nat).

Transparent createMessage.

(** One round of the tool loop whose [Promise.all] fulfils with [results]:
    the request that follows carries no system prompt; its messages are
    those of the array so far, then the assistant's content, then one user
    message with the results in the order of [Promise.all]; its tools are
    the catalogue as the round has left it (refreshed, if an invocation
    reconnected).  The loop goes on with the answer, or the turn fails with
    the error of the request. *)
Theorem follow_up_request round messages response m t tr msgs results c1 :
  arrays m !! messages = Some msgs ->
  stop_reason response = tool_use ->
  filterToolUse (response_content response) <> [] ->
  run w (promiseAll (map callToolWithRetry (filterToolUse (response_content response)))
           (schedule round))
      (mkConfig (session m) t tr) = (Returned results, c1) ->
  let sentBack :=
    msgs ++ [ {| role := assistant; body := blocks (response_content response) |};
              {| role := user; body := tool_results results |} ] in
  let request := messages_create "claude-haiku-4-5" false sentBack (availableTools (mem c1)) in
  let m1 :=
    mkMem (mem c1) (<[messages:=sentBack]> (arrays m)) (conversationHistories m) (sent m) in
  run w (toolUseLoop (S fuel) schedule round messages response) (mkConfig m t tr) =
    match w _ (clock c1) request with
    | Ok response' =>
        run w (toolUseLoop fuel schedule (S round) messages response')
          (mkConfig m1 (S (clock c1)) (trace c1 ++ [Ev request (Ok response')]))
    | Err e => (Thrown_ e, mkConfig m1 (S (clock c1)) (trace c1 ++ [Ev request (Err e)]))
    end.
Proof.
  intros Hmsgs Hstop Hblocks Hbatch sentBack request m1. subst sentBack request m1.
  change (toolUseLoop (S fuel) schedule round messages response) with
    (match stop_reason response with
     | tool_use =>
         let toolUseBlocks := filterToolUse (response_content response) in
         if (length toolUseBlocks =? 0)%nat then Ret response
         else
           push messages {| role := assistant; body := blocks (response_content response) |};;
           let* toolResults :=
             inSession (promiseAll (map callToolWithRetry toolUseBlocks) (schedule round)) in
           push messages {| role := user; body := tool_results toolResults |};;
           let* response' := createMessage false messages in
           toolUseLoop fuel schedule (S round) messages response'
     | _ => Ret response
     end).
  rewrite Hstop. cbv zeta.
  destruct (length _ =? 0)%nat eqn:Hlen.
  { apply Nat.eqb_eq in Hlen. by destruct (filterToolUse (response_content response)). }
  unfold push, assign. simpl. rewrite run_bind, run_inSession. simpl. rewrite Hbatch.
  destruct c1 as [g1 t1 tr1]. simpl.
  unfold createMessage, readArray. simpl.
  rewrite (pushed_twice _ _ _ msgs) by done. rewrite lookup_insert_eq. simpl.
  unfold set_arrays, set_session. simpl.
  match goal with |- context [w _ t1 ?op] => destruct (w _ t1 op) as [response'|e] end; done.
Qed.

End FollowUp.

(** ** The older backend does not retry *)

Section Part000Turn.
Context (w : World) (fuel : nat).

Transparent createMessage.

(** The older backend has no retry: whatever the failure of the tool call
    (a session expiry included), the turn ends right after that one call
    with the error chunk and ["[END]"]; nothing was added to the array of
    messages. *)
Theorem part000_tool_failure_ends_turn userMessage conversationHistory ws m t tr c
    response toolUse e :
  let msgs := default [] (arrays m !! conversationHistory) ++ [userTurn userMessage] in
  let request := messages_create "claude-3-5-sonnet-20241022" true msgs (availableTools (session m)) in
  let theCall := callTool c (tool_name toolUse) (input toolUse) in
  mcpClient (session m) = Some c ->
  w _ t request = Ok response ->
  stop_reason response = tool_use ->
  Part000.findToolUse (response_content response) = Some toolUse ->
  w _ (S t) theCall = Err e ->
  run w (Part000.processMessageWithClaude (S fuel) userMessage conversationHistory ws)
      (mkConfig m t tr) =
    (Returned tt,
     mkConfig
       (set_sent (sent m ++ [(ws, "Error: " +:+ reportedMessage e); (ws, END)])
          (set_arrays (<[fresh (dom (arrays m)):=msgs]> (arrays m)) m))
       (S (S t))
       (tr ++ [Ev request (Ok response); Ev theCall (Err e)])).
Proof.
  intros msgs request theCall Hc Hanswer Hstop Hfind Hcall. subst msgs request theCall.
  unfold Part000.processMessageWithClaude, Part000.converse, Part000.createMessage, readArray,
    newArray, userTurn in *.
  rewrite run_tryCatch, run_bind. simpl.
  rewrite lookup_insert_eq, map_rebuild. simpl. rewrite Hanswer. simpl.
  rewrite Hstop, Hfind. simpl. rewrite Hc. simpl. rewrite Hcall. simpl.
  unfold set_sent, set_arrays, set_session. simpl. by rewrite <- !app_assoc.
Qed.

End Part000Turn.

(** ** The histories of different sockets *)

(** Every stored history is an existing array, and no array is the history
    of two sockets. *)
Definition isolated (m : Mem) : Prop :=
  (forall ws l, conversationHistories m !! ws = Some l -> l ∈ dom (arrays m)) /\
  (forall ws1 ws2 l,
     conversationHistories m !! ws1 = Some l ->
     conversationHistories m !! ws2 = Some l -> ws1 = ws2).

(** What the WebSocket server reacts to. *)
Inductive SocketEvent : Type :=
| Connection (ws : WebSocket)
| Message (fuel : nat) (schedule : nat -> list nat) (ws : WebSocket) (data : string)
| Closed (ws : WebSocket).

Definition handle (ev : SocketEvent) : Prog Mem unit :=
  match ev with
  | Connection ws => onConnection ws
  | Message fuel schedule ws data => onMessage fuel schedule ws data
  | Closed ws => onClose ws
  end.

(** The handlers run one after the other, each to its end. *)
Definition serve (w : World) (evs : list SocketEvent) (c : Config Mem) : Config Mem :=
  foldl (fun c ev => (run w (handle ev) c).2) c evs.

Section Sockets.
Context (w : World).

(** A fresh location is none of the existing ones. *)
Ltac stale :=
  match goal with
  | H : fresh ?X ∈ _ |- _ =>
      apply (is_fresh X); revert H; rewrite ?dom_alter_L, ?dom_insert_L; set_solver
  end.

(** A message changes no entry of the map, drops no array, and changes no
    array but the history of its own socket. *)
Lemma onMessage_effect fuel schedule ws data c :
  let r := run w (onMessage fuel schedule ws data) c in
  conversationHistories (mem r.2) = conversationHistories (mem c) /\
  dom (arrays (mem c)) ⊆ dom (arrays (mem r.2)) /\
  forall l, l ∈ dom (arrays (mem c)) ->
            conversationHistories (mem c) !! ws <> Some l ->
            arrays (mem r.2) !! l = arrays (mem c) !! l.
Proof.
  intros r. subst r. destruct c as [m t tr]. simpl.
  unfold onMessage, push, readArray, newArray, assign. simpl.
  destruct (conversationHistories m !! ws) as [l0|] eqn:Hws; simpl.
  - match goal with
    | |- context [run w (processMessageWithClaude ?f ?s ?u ?a ?x) ?c0] =>
        destruct (turn_frame w f s u a x c0) as (_ & Hhistories & Harrays)
    end.
    simpl in *. split; [done|]. split.
    + intros l Hl. apply elem_of_dom. rewrite Harrays.
      * apply elem_of_dom. rewrite dom_insert_L, dom_alter_L. set_solver.
      * rewrite dom_insert_L, dom_alter_L. set_solver.
    + intros l Hl Hne. rewrite Harrays.
      * rewrite lookup_insert_ne by (intros <-; stale).
        rewrite lookup_alter_ne; [done|]. by intros ->.
      * rewrite dom_insert_L, dom_alter_L. set_solver.
  - match goal with
    | |- context [run w (processMessageWithClaude ?f ?s ?u ?a ?x) ?c0] =>
        destruct (turn_frame w f s u a x c0) as (_ & Hhistories & Harrays)
    end.
    simpl in *. split; [done|]. split.
    + intros l Hl. apply elem_of_dom. rewrite Harrays.
      * apply elem_of_dom. rewrite dom_insert_L, dom_alter_L, dom_insert_L. set_solver.
      * rewrite dom_insert_L, dom_alter_L, dom_insert_L. set_solver.
    + intros l Hl _. rewrite Harrays.
      * rewrite lookup_insert_ne by (intros <-; stale).
        rewrite lookup_alter_ne by (intros <-; stale).
        by rewrite lookup_insert_ne by (intros <-; stale).
      * rewrite dom_insert_L, dom_alter_L, dom_insert_L. set_solver.
Qed.

Lemma handle_isolated ev c :
  isolated (mem c) -> isolated (mem (run w (handle ev) c).2).
Proof.
  intros [Hallocated Hinjective].
  destruct ev as [ws|fuel schedule ws data|ws].
  - destruct c as [m t tr]. unfold isolated, handle, onConnection, newArray, assign.
    simpl in *. split.
    + intros ws' l. rewrite dom_insert_L. destruct (decide (ws' = ws)) as [->|Hne].
      * rewrite lookup_insert_eq. intros [= <-]. set_solver.
      * rewrite lookup_insert_ne by done. intros Hl%Hallocated. set_solver.
    + intros ws1 ws2 l.
      destruct (decide (ws1 = ws)) as [->|Hne1], (decide (ws2 = ws)) as [->|Hne2];
        rewrite ?lookup_insert_eq, ?lookup_insert_ne by done; try done.
      * intros [= <-] Hl%Hallocated. exfalso. stale.
      * intros Hl%Hallocated [= <-]. exfalso. stale.
      * apply Hinjective.
  - destruct (onMessage_effect fuel schedule ws data c) as (Hhistories & Hdom & _).
    unfold handle. split.
    + intros ws' l. rewrite Hhistories. intros Hl%Hallocated. by apply Hdom.
    + intros ws1 ws2 l. rewrite Hhistories. apply Hinjective.
  - destruct c as [m t tr]. unfold isolated, handle, onClose, assign. simpl in *. split.
    + intros ws' l [_ Hl]%lookup_delete_Some. eauto.
    + intros ws1 ws2 l [_ H1]%lookup_delete_Some [_ H2]%lookup_delete_Some. eauto.
Qed.

(** Whatever connections, messages and closes the server handles, one
    after the other: every stored history is an existing array, and no two
    sockets share one. *)
Theorem histories_stay_isolated evs c :
  isolated (mem c) -> isolated (mem (serve w evs c)).
Proof.
  revert c. induction evs as [|ev evs IH]; intros c Hc; simpl; [done|].
  by apply IH, handle_isolated.
Qed.

(** A message on one socket leaves the history of every other socket as it
    was: same array, same contents. *)
Theorem turn_leaves_other_histories fuel schedule ws data c ws' l' :
  isolated (mem c) ->
  ws' <> ws ->
  conversationHistories (mem c) !! ws' = Some l' ->
  let r := run w (onMessage fuel schedule ws data) c in
  conversationHistories (mem r.2) !! ws' = Some l' /\
  arrays (mem r.2) !! l' = arrays (mem c) !! l'.
Proof.
  intros [Hallocated Hinjective] Hne Hl' r. subst r.
  destruct (onMessage_effect fuel schedule ws data c) as (Hhistories & _ & Harrays).
  simpl in *. rewrite Hhistories. split; [done|].
  apply Harrays; [by eapply Hallocated|].
  intros Hws. destruct Hne. by eapply Hinjective.
Qed.

End Sockets.

(** ** How a round starts *)

Section RoundStart.
Context (w : World).

Transparent attempt.

(** The task waits for the answer to the first call of [toolUse], made on
    client [c]. *)
Definition inFlight (c : Client) (toolUse : ToolUseBlock) (task : Task Globals ToolResult)
  : Prop :=
  exists k, task = Pending (callTool c (tool_name toolUse) (input toolUse)) k.

(** [toolUseBlocks.map(async ...)] runs each function up to its first
    [await] before [Promise.all] waits for anything: when the wait begins,
    the first call of every block has been made, all of them on the client
    that was current when the round began, and nothing has completed or
    changed yet.  A call of the round is thus answered as a call on that
    client even when a sibling has reconnected before the answer comes. *)
Theorem round_starts_every_call_at_once toolUseBlocks g t tr c :
  mcpClient g = Some c ->
  exists ts,
    run w (advanceAll (map callToolWithRetry toolUseBlocks)) (mkConfig g t tr)
      = (Returned ts, mkConfig g t tr) /\
    Forall2 (inFlight c) toolUseBlocks ts /\
    forall sched,
      run w (promiseAll (map callToolWithRetry toolUseBlocks) sched) (mkConfig g t tr)
        = run w (drive sched ts) (mkConfig g t tr).
Proof.
  intros Hc.
  assert (Hstart : exists ts,
    run w (advanceAll (map callToolWithRetry toolUseBlocks)) (mkConfig g t tr)
      = (Returned ts, mkConfig g t tr) /\
    Forall2 (inFlight c) toolUseBlocks ts).
  { induction toolUseBlocks as [|toolUse rest (ts & Hrun & Hts)].
    - exists []. by split.
    - change (advanceAll (map callToolWithRetry (toolUse :: rest))) with
        (let* t := advance (callToolWithRetry toolUse) in
         let* ts := advanceAll (map callToolWithRetry rest) in
         Ret (t :: ts)).
      rewrite run_bind.
      assert (Hfirst : exists task,
        run w (advance (callToolWithRetry toolUse)) (mkConfig g t tr)
          = (Returned task, mkConfig g t tr) /\ inFlight c toolUse task).
      { unfold callToolWithRetry, attempt. simpl. rewrite Hc. simpl.
        eexists. split; [done|]. by eexists. }
      destruct Hfirst as (task & -> & Htask).
      rewrite run_bind, Hrun. simpl. exists (task :: ts). split; [done|]. by constructor. }
  destruct Hstart as (ts & Hrun & Hts). exists ts. repeat split; try done.
  intros sched. unfold promiseAll. by rewrite run_bind, Hrun.
Qed.

End RoundStart.

(** ** A round in which no call fails *)

(** The tasks of [Promise.all] that still wait for an answer. *)
Fixpoint pendingCount {St B} (ts : list (Task St B)) : nat :=
  match ts with
  | [] => 0
  | Pending _ _ :: ts' => S (pendingCount ts')
  | _ :: ts' => pendingCount ts'
  end.

Definition isPending {St B} (t : Task St B) : bool :=
  match t with Pending _ _ => true | _ => false end.

Section CallsSucceed.
Context (w : World) (c : Client).
Hypothesis calls_succeed :
  forall t tool arguments, exists result, w _ t (callTool c tool arguments) = Ok result.

Transparent attempt.

(** A task of the round: it has the result of its call, or it waits for an
    answer on which it will fulfil with that result, touching nothing. *)
Definition callingFor (toolUse : ToolUseBlock) (task : Task Globals ToolResult) : Prop :=
  match task with
  | Fulfilled r => tool_use_id r = id toolUse
  | Rejected _ => False
  | Pending op k =>
      forall t cfg, exists r,
        run w (advance (k (w _ t op))) cfg = (Returned (Fulfilled r), cfg) /\
        tool_use_id r = id toolUse
  end.

Lemma advance_callToolWithRetry toolUse g t tr :
  mcpClient g = Some c ->
  exists task,
    run w (advance (callToolWithRetry toolUse)) (mkConfig g t tr)
      = (Returned task, mkConfig g t tr) /\
    callingFor toolUse task /\ isPending task = true.
Proof.
  intros Hc. unfold callToolWithRetry, attempt. simpl. rewrite Hc. simpl.
  eexists. split; [done|]. split; [|done].
  intros t0 cfg. simpl.
  destruct (calls_succeed t0 (tool_name toolUse) (input toolUse)) as [result ->].
  simpl. by eexists.
Qed.

Lemma advanceAll_invocations toolUseBlocks g t tr :
  mcpClient g = Some c ->
  exists ts,
    run w (advanceAll (map callToolWithRetry toolUseBlocks)) (mkConfig g t tr)
      = (Returned ts, mkConfig g t tr) /\
    Forall2 callingFor toolUseBlocks ts /\
    pendingCount ts = length toolUseBlocks.
Proof.
  intros Hc. induction toolUseBlocks as [|toolUse rest (ts & Hrun & Hts & Hcount)].
  - exists []. simpl. by repeat split.
  - destruct (advance_callToolWithRetry toolUse g t tr Hc) as (task & Htask & Hcalling & Hp).
    exists (task :: ts).
    change (advanceAll (map callToolWithRetry (toolUse :: rest))) with
      (let* t := advance (callToolWithRetry toolUse) in
       let* ts := advanceAll (map callToolWithRetry rest) in
       Ret (t :: ts)).
    rewrite run_bind, Htask, run_bind, Hrun. simpl.
    split; [done|]. split; [by constructor|].
    destruct task; try done. simpl. by rewrite Hcount.
Qed.

Lemma callingFor_not_rejected toolUseBlocks ts :
  Forall2 callingFor toolUseBlocks ts -> firstRejected ts = None.
Proof. induction 1 as [|toolUse task ? ? Htask _ IH]; simpl; [done|]. by destruct task. Qed.

Lemma callingFor_fulfilled toolUseBlocks ts :
  Forall2 callingFor toolUseBlocks ts ->
  match allFulfilled ts with
  | Some results =>
      pendingCount ts = 0 /\ map tool_use_id results = map id toolUseBlocks
  | None => exists i task, ts !! i = Some task /\ isPending task = true
  end.
Proof.
  induction 1 as [|toolUse task toolUseBlocks ts Htask _ IH]; simpl; [done|].
  destruct task as [r|e|X op k]; simpl in *; [|done|].
  - destruct (allFulfilled ts) as [results|]; simpl.
    + destruct IH as [-> ->]. by rewrite Htask.
    + destruct IH as (i & task & Hi & Hp). by exists (S i), task.
  - by exists 0, (Pending op k).
Qed.

Lemma pendingCount_fulfil {St B} (ts : list (Task St B)) i X (op : Ext X) k b :
  ts !! i = Some (Pending op k) ->
  S (pendingCount (<[i:=Fulfilled b]> ts)) = pendingCount ts.
Proof.
  revert i. induction ts as [|task ts IH]; intros [|i]; simpl; try done.
  - by intros [= ->].
  - intros Hi. destruct task; simpl; auto.
Qed.

Lemma drive_invocations toolUseBlocks sched ts g t tr :
  Forall2 callingFor toolUseBlocks ts ->
  (forall i task, ts !! i = Some task -> isPending task = true -> i ∈ sched) ->
  exists results tr',
    run w (drive sched ts) (mkConfig g t tr)
      = (Returned results, mkConfig g (t + pendingCount ts) tr') /\
    map tool_use_id results = map id toolUseBlocks.
Proof.
  revert ts t tr. induction sched as [|j sched IH]; intros ts t tr Hts Hsched.
  - pose proof (callingFor_fulfilled _ _ Hts) as Hall.
    simpl. rewrite (callingFor_not_rejected _ _ Hts).
    destruct (allFulfilled ts) as [results|].
    + destruct Hall as [-> Hids]. exists results, tr. by rewrite Nat.add_0_r.
    + destruct Hall as (i & task & Hi & Hp). by destruct (not_elem_of_nil i); eauto.
  - pose proof (callingFor_fulfilled _ _ Hts) as Hall.
    simpl. rewrite (callingFor_not_rejected _ _ Hts).
    destruct (allFulfilled ts) as [results|].
    { destruct Hall as [-> Hids]. exists results, tr. by rewrite Nat.add_0_r. }
    clear Hall.
    assert (Hrest : forall task, ts !! j = Some task -> isPending task = false ->
              forall i task', ts !! i = Some task' -> isPending task' = true -> i ∈ sched).
    { intros task Hj Hp i task' Hi Hp'.
      pose proof (Hsched i task' Hi Hp') as [->|Hin]%elem_of_cons; [|done]. congruence. }
    destruct (ts !! j) as [[r|e|X op k]|] eqn:Hj.
    + apply IH; [done|]. by eapply Hrest.
    + apply IH; [done|]. by eapply Hrest.
    + simpl.
      destruct (Forall2_lookup_r _ _ _ _ _ Hts Hj) as (toolUse & HtoolUse & Hk). simpl in Hk.
      rewrite run_bind.
      destruct (Hk t (mkConfig g (S t) (tr ++ [Ev op (w X t op)]))) as (r & -> & Hid).
      edestruct (IH (<[j:=Fulfilled r]> ts)) as (results & tr' & -> & Hids).
      * rewrite <- (list_insert_id toolUseBlocks j toolUse HtoolUse). by apply Forall2_insert.
      * intros i task Hi Hp. destruct (decide (i = j)) as [->|Hne].
        -- rewrite list_lookup_insert_eq in Hi by (by eapply lookup_lt_Some).
           injection Hi as <-. done.
        -- rewrite list_lookup_insert_ne in Hi by done.
           pose proof (Hsched i task Hi Hp) as [->|Hin]%elem_of_cons; done.
      * exists results, tr'. split; [|done]. f_equal. f_equal.
        rewrite <- (pendingCount_fulfil ts j X op k r Hj). lia.
    + apply IH; [done|]. intros i task Hi Hp.
      pose proof (Hsched i task Hi Hp) as [->|Hin]%elem_of_cons; [congruence|done].
Qed.

(** A round in which no call fails (server [c] answers every call):
    whatever the order in which the calls complete, provided each of them
    completes, [Promise.all] fulfils with one result per call, in the order
    of the calls, after exactly one call per block; the session variables
    are untouched, so nothing was reconnected. *)
Theorem round_fulfils_when_calls_succeed toolUseBlocks sched g t tr :
  mcpClient g = Some c ->
  (forall i, i < length toolUseBlocks -> i ∈ sched) ->
  exists results tr',
    run w (promiseAll (map callToolWithRetry toolUseBlocks) sched) (mkConfig g t tr)
      = (Returned results, mkConfig g (t + length toolUseBlocks) tr') /\
    map tool_use_id results = map id toolUseBlocks.
Proof.
  intros Hc Hsched.
  destruct (advanceAll_invocations toolUseBlocks g t tr Hc) as (ts & Hrun & Hts & Hcount).
  unfold promiseAll. rewrite run_bind, Hrun.
  destruct (drive_invocations toolUseBlocks sched ts g t tr Hts) as (results & tr' & -> & Hids).
  - intros i task Hi _. apply Hsched.
    rewrite (Forall2_length _ _ _ Hts). by eapply lookup_lt_Some.
  - exists results, tr'. by rewrite Hcount.
Qed.

End CallsSucceed.

(** ** The two backends on one tool at a time *)

(** An event without the name of the model that a request was made to: the
    two backends name different models. *)
Definition withoutModel (ev : Event) : Event :=
  match ev with
  | Ev op answer =>
      match op in Ext X return X -> Event with
      | messages_create _ system messages tools =>
          fun r => Ev (messages_create "" system messages tools) r
      | callTool c tool arguments => fun r => Ev (callTool c tool arguments) r
      | close c => fun r => Ev (close c) r
      | connect c t => fun r => Ev (connect c t) r
      | listTools c => fun r => Ev (listTools c) r
      | listPrompts c => fun r => Ev (listPrompts c) r
      | listResources c => fun r => Ev (listResources c) r
      | finishAuth t authCode => fun r => Ev (finishAuth t authCode) r
      | loadSavedTokens p => fun r => Ev (loadSavedTokens p) r
      | clearPendingAuth p => fun r => Ev (clearPendingAuth p) r
      | setTimeout ms => fun r => Ev (setTimeout ms) r
      end answer
  end.

Section OneToolAtATime.
Context (w : World) (c : Client) (schedule : nat -> list nat) (messages : loc).
Hypothesis calls_succeed :
  forall t tool arguments, exists result, w _ t (callTool c tool arguments) = Ok result.
Hypothesis one_tool_at_most :
  forall t model system msgs tools response,
    w _ t (messages_create model system msgs tools) = Ok response ->
    length (filterToolUse (response_content response)) <= 1.
Hypothesis first_completes_first : forall round, exists rest, schedule round = 0 :: rest.
Hypothesis same_answers :
  forall t system msgs tools,
    w _ t (messages_create "claude-haiku-4-5" system msgs tools) =
    w _ t (messages_create "claude-3-5-sonnet-20241022" system msgs tools).

Transparent attempt createMessage.

Lemma run_single_invocation toolUse rest g t tr result :
  mcpClient g = Some c ->
  w _ t (callTool c (tool_name toolUse) (input toolUse)) = Ok result ->
  run w (promiseAll [callToolWithRetry toolUse] (0 :: rest)) (mkConfig g t tr) =
    (Returned [result_of toolUse result],
     mkConfig g (S t) (tr ++ [Ev (callTool c (tool_name toolUse) (input toolUse)) (Ok result)])).
Proof.
  intros Hc Hcall. unfold promiseAll, callToolWithRetry, attempt. simpl.
  rewrite Hc. simpl. rewrite Hcall. simpl. by destruct rest.
Qed.

Lemma toolUseLoops_agree fuel round response m t tr tr' :
  mcpClient (session m) = Some c ->
  length (filterToolUse (response_content response)) <= 1 ->
  map withoutModel tr = map withoutModel tr' ->
  exists o m1 t1 tr1 tr1',
    run w (toolUseLoop fuel schedule round messages response) (mkConfig m t tr)
      = (o, mkConfig m1 t1 tr1) /\
    run w (Part000.toolUseLoop fuel messages response) (mkConfig m t tr')
      = (o, mkConfig m1 t1 tr1') /\
    map withoutModel tr1 = map withoutModel tr1'.
Proof.
  revert round response m t tr tr'.
  induction fuel as [|fuel IH]; intros round response m t tr tr' Hc Hone Htr.
  { by exists Diverged, m, t, tr, tr'. }
  change (toolUseLoop (S fuel) schedule round messages response) with
    (match stop_reason response with
     | tool_use =>
         let toolUseBlocks := filterToolUse (response_content response) in
         if (length toolUseBlocks =? 0)%nat then Ret response
         else
           push messages {| role := assistant; body := blocks (response_content response) |};;
           let* toolResults :=
             inSession (promiseAll (map callToolWithRetry toolUseBlocks) (schedule round)) in
           push messages {| role := user; body := tool_results toolResults |};;
           let* response' := createMessage false messages in
           toolUseLoop fuel schedule (S round) messages response'
     | _ => Ret response
     end).
  change (Part000.toolUseLoop (S fuel) messages response) with
    (match stop_reason response with
     | tool_use =>
         match Part000.findToolUse (response_content response) with
         | None => Ret response
         | Some toolUse =>
             let* toolResult :=
               inSession
                 (let* c := theClient "callTool" in
                  await (callTool c (tool_name toolUse) (input toolUse))) in
             push messages {| role := assistant; body := blocks (response_content response) |};;
             push messages
               {| role := user;
                  body := tool_results
                    [ {| tool_use_id := id toolUse; content := JSON_stringify toolResult |} ] |};;
             let* response' := Part000.createMessage false messages in
             Part000.toolUseLoop fuel messages response'
         end
     | _ => Ret response
     end).
  destruct (stop_reason response); try (by exists (Returned response), m, t, tr, tr').
  unfold Part000.findToolUse, filterToolUse in *.
  destruct (omap asToolUse (response_content response)) as [|toolUse [|? ?]] eqn:Hblocks;
    simpl in Hone; [by exists (Returned response), m, t, tr, tr'| |lia].
  cbv zeta. simpl length. simpl Nat.eqb. cbv iota. simpl head. cbv iota.
  destruct (first_completes_first round) as [rest ->].
  destruct (calls_succeed t (tool_name toolUse) (input toolUse)) as [result Hcall].
  unfold push, assign, inSession, promiseAll, callToolWithRetry, attempt. simpl.
  rewrite Hc. simpl. rewrite Hcall. simpl.
  replace (drive rest [Fulfilled {| tool_use_id := id toolUse; content := JSON_stringify result |}])
    with (Ret (St := Globals) [ {| tool_use_id := id toolUse; content := JSON_stringify result |} ])
    by (by destruct rest).
  simpl. unfold createMessage, Part000.createMessage, readArray. simpl.
  rewrite <- same_answers.
  match goal with
  | |- context [w _ (S t) ?op] => destruct (w _ (S t) op) as [response'|e] eqn:Hnext
  end; simpl.
  - apply IH; [done|by eapply one_tool_at_most|].
    rewrite !map_app, Htr. done.
  - do 5 eexists. split; [done|]. split; [done|].
    rewrite !map_app, Htr. done.
Qed.

(** As long as the model asks for at most one tool per response, no call
    fails, and the provider answers the model named by [index.ts] as it
    answers the one named by the older backend, the two tool loops do the
    same from the same configuration: the same outcome, the same state and
    arrays, and the same operations in the same order with the same
    answers, the name of the model in the requests apart. *)
Theorem backends_agree_on_one_tool_at_a_time fuel round response cfg :
  mcpClient (session (mem cfg)) = Some c ->
  length (filterToolUse (response_content response)) <= 1 ->
  let r := run w (toolUseLoop fuel schedule round messages response) cfg in
  let r' := run w (Part000.toolUseLoop fuel messages response) cfg in
  r.1 = r'.1 /\
  mem r.2 = mem r'.2 /\
  clock r.2 = clock r'.2 /\
  map withoutModel (trace r.2) = map withoutModel (trace r'.2).
Proof.
  intros Hc Hone. destruct cfg as [m t tr].
  destruct (toolUseLoops_agree fuel round response m t tr tr Hc Hone eq_refl)
    as (o & m1 & t1 & tr1 & tr1' & -> & -> & Htr).
  done.
Qed.

End OneToolAtATime.

(** ** The further theorems at concrete inputs *)

(** The provider rejects the authorization code. *)
Definition codeRejected : World := fun X t op =>
  match op in Ext X return X with
  | callTool _ tool _ => Ok tool
  | close _ => Ok tt
  | connect _ _ => Ok tt
  | listTools _ => Ok [get_market]
  | listPrompts _ => Ok []
  | listResources _ => Ok []
  | finishAuth _ _ => Err (newError "invalid_grant")
  | loadSavedTokens _ => Ok tt
  | clearPendingAuth _ => tt
  | messages_create _ _ _ _ => Ok closing
  | setTimeout _ => tt
  end.

(** The session has expired and the server refuses new connections. *)
Definition serverGone : World :=
  scripted (fun _ => Err expired) (fun _ => Err refused) (fun _ => Ok closing).

(** The model asks for two tools; every tool call fails. *)
Definition toolsDown : World :=
  scripted (fun _ => Err expired) (fun _ => Ok tt)
    (fun system => Ok (if system then twoCalls else closing)).

Definition oneCall : ModelResponse :=
  {| stop_reason := tool_use;
     response_content := [text_block "Let me look."; tool_use_block firstCall] |}.

(** The model asks for one tool, then answers in text; the call succeeds. *)
Definition asksOnce : World := fun X t op =>
  match op in Ext X return X with
  | callTool _ tool _ => Ok tool
  | close _ => Ok tt
  | connect _ _ => Ok tt
  | listTools _ => Ok [get_market]
  | listPrompts _ => Ok []
  | listResources _ => Ok []
  | finishAuth _ _ => Ok tt
  | loadSavedTokens _ => Ok tt
  | clearPendingAuth _ => tt
  | messages_create _ system _ _ => Ok (if system then oneCall else closing)
  | setTimeout _ => tt
  end.

(** No socket has connected yet. *)
Definition noSocket : Config Mem := mkConfig (mkMem connected ∅ ∅ []) 0 [].

(** Sockets 7 and 8 have connected, in this order. *)
Definition twoSockets : Config Mem := serve asksTwice [Connection 7; Connection 8] noSocket.

Lemma oauth_callback_before_provider_witness :
  run asksTwice (oauthCallback (Some "code") None) (mkConfig start 0 []) =
    (Returned {| statusCode := 500;
                 page := AuthenticationFailed "OAuth provider not initialized" |},
     mkConfig start 0 []).
Proof.
  apply (oauth_callback_before_provider asksTwice (Some "code") None start 0 []).
  - reflexivity.
  - left. reflexivity.
Defined.

Lemma oauth_callback_failure_witness :
  run codeRejected (oauthCallback (Some "code") None) (mkConfig connected 5 []) =
    (Returned {| statusCode := 500; page := AuthenticationFailed "invalid_grant" |},
     mkConfig connected 6 [Ev (finishAuth 1 "code") (Err (newError "invalid_grant"))]).
Proof.
  refine (proj1 (oauth_callback_failure codeRejected (Some "code") None connected 5 [] 1 0 2
                   _ _ _ _) (newError "invalid_grant") _); reflexivity.
Defined.

Lemma tools_route_after_refresh_witness :
  toolsRoute (mem (run asksTwice initializeTools (mkConfig connected 0 [])).2) =
    [ {| summary_name := "get_market"; summary_description := "" |} ].
Proof.
  refine (proj1 (tools_route_after_refresh asksTwice connected 0 [] 2 [get_market] _ _));
    reflexivity.
Defined.

Lemma call_without_client_witness :
  run asksTwice (callToolWithRetry firstCall) (mkConfig start 0 []) =
    (Thrown_ (nullDereference "callTool"), mkConfig start 0 []).
Proof. apply (call_without_client asksTwice firstCall start 0 []). reflexivity. Defined.

Lemma failed_reconnect_replaces_error_witness :
  run serverGone (callToolWithRetry firstCall) (mkConfig connected 0 []) =
    (Thrown_ refused, (run serverGone reconnectMCPSession afterFirstFailure).2).
Proof.
  apply (failed_reconnect_replaces_error serverGone firstCall connected 0 [] 2 expired).
  - reflexivity.
  - reflexivity.
  - vm_compute. reflexivity.
  - vm_compute. reflexivity.
Defined.

Lemma reconnect_failure_modes_witness :
  run serverGone reconnectMCPSession (mkConfig connected 0 []) =
    (Thrown_ refused,
     mkConfig (mkGlobals (Some 4) (Some 3) (Some 0) [toAnthropicTool get_market] 5) 2
       [Ev (close 2) (Ok tt); Ev (connect 4 3) (Err refused)]).
Proof.
  refine (proj1 (proj2 (proj2 (reconnect_failure_modes serverGone connected 0 [] 2 _)))
            0 refused _ _ _); reflexivity.
Defined.

Lemma turn_without_tools_witness :
  sent (mem (run expiresOnce (processMessageWithClaude 1 (fun _ => []) "hi" 0 7) oneSocket).2)
    = [(7, "hello "); (7, " "); (7, "big "); (7, "world"); (7, "[END]")].
Proof.
  unfold oneSocket.
  rewrite (turn_without_tools expiresOnce 0 (fun _ => []) "hi" 0 7 _ 0 [] closing).
  - reflexivity.
  - reflexivity.
  - left. discriminate.
Defined.

Lemma first_request_carries_history_witness :
  exists rest,
    trace (run asksTwice (onMessage 5 (fun _ => [1; 0]) 7 "hi") oneSocket).2 =
      Ev (messages_create "claude-haiku-4-5" true [question] [toAnthropicTool get_market]) (Ok twoCalls) :: rest.
Proof.
  apply (first_request_carries_history asksTwice 5 (fun _ => [1; 0]) 7 "hi" oneSocket 0 []).
  - vm_compute. reflexivity.
  - vm_compute. reflexivity.
Defined.

Lemma message_on_unknown_socket_witness :
  conversationHistories
    (mem (run asksTwice (onMessage 5 (fun _ => [1; 0]) 8 "hi") oneSocket).2)
    = conversationHistories (mem oneSocket).
Proof.
  refine (proj1 (message_on_unknown_socket asksTwice 5 (fun _ => [1; 0]) 8 "hi" oneSocket _)).
  vm_compute. reflexivity.
Defined.

Lemma follow_up_request_witness :
  (run asksTwice (toolUseLoop 5 (fun _ => [1; 0]) 0 0 twoCalls) oneSocket).1
    = Returned closing.
Proof.
  unfold oneSocket.
  rewrite (follow_up_request asksTwice 4 (fun _ => [1; 0]) 0 0 twoCalls _ 0 [] []
             [ {| tool_use_id := "toolu_1"; content := "get_market" |};
               {| tool_use_id := "toolu_2"; content := "list_tags" |} ]
             (run asksTwice (promiseAll (map callToolWithRetry [firstCall; secondCall]) [1; 0])
                (mkConfig connected 0 [])).2).
  - vm_compute. reflexivity.
  - vm_compute. reflexivity.
  - reflexivity.
  - discriminate.
  - vm_compute. reflexivity.
Defined.

Lemma part000_tool_failure_ends_turn_witness :
  sent (mem (run toolsDown (Part000.processMessageWithClaude 5 "hi" 0 7) oneSocket).2)
    = [(7, "Error: Error POSTing to endpoint: Session not found or expired"); (7, "[END]")].
Proof.
  unfold oneSocket.
  rewrite (part000_tool_failure_ends_turn toolsDown 4 "hi" 0 7 _ 0 [] 2 twoCalls firstCall
             expired); reflexivity.
Defined.

Lemma isolated_noSocket : isolated (mem noSocket).
Proof. split; intros *; simpl; by rewrite lookup_empty. Qed.

Lemma histories_stay_isolated_witness :
  isolated
    (mem (serve asksTwice
            [Connection 7; Message 5 (fun _ => [1; 0]) 7 "hi"; Connection 8; Closed 7]
            noSocket)).
Proof. apply (histories_stay_isolated asksTwice). apply isolated_noSocket. Defined.

Lemma turn_leaves_other_histories_witness :
  arrays (mem (run asksTwice (onMessage 5 (fun _ => [1; 0]) 7 "hi") twoSockets).2) !! 1
    = arrays (mem twoSockets) !! 1.
Proof.
  refine (proj2 (turn_leaves_other_histories asksTwice 5 (fun _ => [1; 0]) 7 "hi" twoSockets
                   8 1 _ _ _)).
  - change (isolated (mem (run asksTwice (handle (Connection 8))
                               (run asksTwice (handle (Connection 7)) noSocket).2).2)).
    apply (handle_isolated asksTwice (Connection 8)).
    apply (handle_isolated asksTwice (Connection 7)).
    apply isolated_noSocket.
  - discriminate.
  - vm_compute. reflexivity.
Defined.

Lemma round_fulfils_when_calls_succeed_witness :
  exists results tr',
    run asksTwice (promiseAll (map callToolWithRetry [firstCall; secondCall]) [1; 0])
        (mkConfig connected 0 [])
      = (Returned results, mkConfig connected 2 tr') /\
    map tool_use_id results = ["toolu_1"; "toolu_2"].
Proof.
  apply (round_fulfils_when_calls_succeed asksTwice 2).
  - intros t tool arguments. eexists. reflexivity.
  - reflexivity.
  - intros [|[|i]] Hi; simpl in Hi; [set_solver | set_solver | lia].
Defined.

Lemma backends_agree_on_one_tool_at_a_time_witness :
  (run asksOnce (toolUseLoop 5 (fun _ => [0]) 0 0 oneCall) oneSocket).1 =
  (run asksOnce (Part000.toolUseLoop 5 0 oneCall) oneSocket).1.
Proof.
  refine (proj1 (backends_agree_on_one_tool_at_a_time asksOnce 2 (fun _ => [0]) 0
                   _ _ _ _ 5 0 oneCall oneSocket _ _)).
  - intros t tool arguments. eexists. reflexivity.
  - intros t model [] msgs tools response [= <-]; simpl; lia.
  - intros round. eexists. reflexivity.
  - reflexivity.
  - reflexivity.
  - simpl. lia.
Defined.

Lemma tool_results_in_call_order_witness :
  map tool_use_id
    (match (run asksTwice
              (inSession (promiseAll (map callToolWithRetry [firstCall; secondCall]) [1; 0]))
              oneSocket).1 with
     | Returned results => results
     | _ => []
     end) = ["toolu_1"; "toolu_2"].
Proof.
  apply (tool_results_in_call_order asksTwice [firstCall; secondCall] [1; 0] oneSocket _
           (run asksTwice
              (inSession (promiseAll (map callToolWithRetry [firstCall; secondCall]) [1; 0]))
              oneSocket).2).
  vm_compute. reflexivity.
Defined.

Lemma round_starts_every_call_at_once_witness :
  exists ts,
    run asksTwice (advanceAll (map callToolWithRetry [firstCall; secondCall]))
        (mkConfig connected 0 [])
      = (Returned ts, mkConfig connected 0 []) /\
    Forall2 (inFlight 2) [firstCall; secondCall] ts /\
    forall sched,
      run asksTwice (promiseAll (map callToolWithRetry [firstCall; secondCall]) sched)
          (mkConfig connected 0 [])
        = run asksTwice (drive sched ts) (mkConfig connected 0 []).
Proof.
  apply (round_starts_every_call_at_once asksTwice [firstCall; secondCall] connected 0 [] 2).
  reflexivity.
Defined.
